(** * Edward: distributions and the layered variational family

    A shallow embedding of [edward/models/distributions.py] and of the
    [cumprod] helper of [edward/util.py].

    Conventions of the embedding.
    - Python integers are [Z]; tensor and array entries are real numbers
      ([R]): a tensor is identified with the value it evaluates to.
    - A rank-1 tensor is a [vector] (a list of reals); a rank-2 tensor or
      NumPy array is an [ndarray], a list of rows that carries its column
      count so that arrays without rows keep their shape.
    - Raising an exception is the [Raise] case of [result].
    - Python list objects live in a store ([gmap] from locations to
      contents); a [Variational] holds the location of its layer list, so
      two objects that were given the same list share it. *)

From Stdlib Require Import ZArith List Reals Lra Lia String Bool.
From stdpp Require Import base option list gmap.

Import ListNotations.
Local Open Scope Z_scope.

(** ** Exceptions *)

Inductive exn : Type :=
| IndexError
| NotImplementedError
| ValueError (msg : string).

Inductive result (A : Type) : Type :=
| Ok (a : A)
| Raise (e : exn).

Arguments Ok {A} a.
Arguments Raise {A} e.

Definition rbind {A B : Type} (r : result A) (k : A -> result B) : result B :=
  match r with
  | Ok a => k a
  | Raise e => Raise e
  end.

Declare Scope result_scope.
Delimit Scope result_scope with result.
Notation "x <- r ;; k" := (rbind r (fun x => k))
  (at level 100, r at next level, right associativity) : result_scope.

(** Left-to-right evaluation of a list comprehension whose body may raise. *)
Fixpoint rmap {A B : Type} (f : A -> result B) (l : list A) : result (list B) :=
  match l with
  | [] => Ok []
  | a :: rest =>
      (b <- f a ;;
       bs <- rmap f rest ;;
       Ok (b :: bs))%result
  end.

(** ** Sequences, vectors and arrays *)

Abbreviation vector := (list R).

Record ndarray : Type := mk_ndarray { ncols : nat; rows : list vector }.

Definition nrows (xs : ndarray) : nat := length (rows xs).

(** Every row has the declared number of columns. *)
Definition shape_ok (xs : ndarray) : Prop :=
  Forall (fun r : vector => length r = ncols xs) (rows xs).

(** [l[i]] on a Python sequence: a negative index counts from the end, an
    index outside the sequence raises [IndexError]. *)
Definition py_index {A : Type} (l : list A) (i : Z) : result A :=
  let n := Z.of_nat (length l) in
  let j := if i <? 0 then i + n else i in
  if (0 <=? j) && (j <? n) then
    match l !! Z.to_nat j with
    | Some x => Ok x
    | None => Raise IndexError
    end
  else Raise IndexError.

(** A bound of a Python slice [a:b] over a dimension of size [len]. *)
Definition slice_bound (k len : Z) : Z :=
  if k <? 0 then Z.max (k + len) 0 else Z.min k len.

(** [xs[:, start:final]]. *)
Definition slice_cols (xs : ndarray) (start final : Z) : ndarray :=
  let n := Z.of_nat (ncols xs) in
  let a := Z.to_nat (slice_bound start n) in
  let b := Z.to_nat (slice_bound final n) in
  {| ncols := (b - a)%nat;
     rows := map (fun r : vector => take (b - a)%nat (drop a r)) (rows xs) |}.

(** [xs[:, i]]. *)
Definition get_col (xs : ndarray) (i : Z) : result vector :=
  let n := Z.of_nat (ncols xs) in
  let j := if i <? 0 then i + n else i in
  if (0 <=? j) && (j <? n) then
    Ok (map (fun r : vector => nth (Z.to_nat j) r 0%R) (rows xs))
  else Raise IndexError.

(** [a[i, :]]. *)
Definition get_row (a : ndarray) (i : Z) : result vector := py_index (rows a) i.

(** ** Tensor operations used by the module *)

Definition reduce_sum (v : vector) : R := fold_right Rplus 0%R v.

Definition tf_sigmoid (t : R) : R := (1 / (1 + exp (- t)))%R.

Definition tf_softplus (t : R) : R := ln (1 + exp t).

(** [tf.concat(1, [a, b])] on arrays with the same number of rows. *)
Definition concat1 (a b : ndarray) : ndarray :=
  {| ncols := (ncols a + ncols b)%nat;
     rows := zip_with (fun r s : vector => r ++ s) (rows a) (rows b) |}.

(** [tf.ones([n, m])]. *)
Definition tf_ones (n m : nat) : ndarray :=
  {| ncols := m; rows := replicate n (replicate m 1%R) |}.

(** Elementwise product of two arrays of one shape. *)
Definition mul2 (a b : ndarray) : ndarray :=
  {| ncols := ncols a;
     rows := zip_with (zip_with Rmult) (rows a) (rows b) |}.

(** ** edward.util.cumprod *)

(** The loop of [cumprod]: [out] collects the running products,
    [prev] is the last one. *)
Fixpoint cumprod_loop (values : list R) (out : list R) (prev : R) : list R :=
  match values with
  | [] => out
  | val :: rest =>
      let s := (prev * val)%R in
      cumprod_loop rest (out ++ [s]) s
  end.

(** [cumprod(xs)] on a rank-1 tensor; [values[0]] raises on an empty one. *)
Definition cumprod (xs : vector) : result vector :=
  match xs with
  | [] => Raise IndexError
  | _ :: _ => Ok (cumprod_loop xs [] 1%R)
  end.

(** Apply a scalar function to every entry of an array. *)
Definition map2d (f : R -> R) (a : ndarray) : ndarray :=
  {| ncols := ncols a; rows := map (map f) (rows a) |}.

(** ** edward.stats *)

(** Modelled from the spec: [edward.stats] is imported by the module but is
    not among the sources. Following sections 4.1 and 4.2 of the
    specification, a log density is evaluated row by row of the batch
    (one value per row), an entropy is computed factor by factor, and
    [rvs(..., size)] returns [size] independent draws; the record holds
    the per-row, per-factor and per-draw functions, which are left
    unspecified. [rng] is the state of the random number generator. *)
Record edward_stats (rng : Type) : Type := {
  bernoulli_logpmf : R -> R -> R;
  bernoulli_entropy : R -> R;
  bernoulli_rvs : R -> rng -> R * rng;
  beta_logpdf : R -> R -> R -> R;
  beta_entropy : R -> R -> R;
  beta_rvs : R -> R -> rng -> R * rng;
  dirichlet_logpdf : vector -> vector -> R;
  dirichlet_entropy : vector -> R;
  dirichlet_rvs : vector -> rng -> vector * rng;
  invgamma_logpdf : R -> R -> R -> R;
  invgamma_entropy : R -> R -> R;
  invgamma_rvs : R -> R -> rng -> R * rng;
  multinomial_logpmf : vector -> Z -> vector -> R;
  multinomial_entropy : Z -> vector -> R;
  multinomial_rvs : Z -> vector -> rng -> vector * rng;
  norm_logpdf : R -> R -> R -> R;
  norm_entropy : R -> R
}.

Arguments bernoulli_logpmf {rng} _ _ _.
Arguments bernoulli_entropy {rng} _ _.
Arguments bernoulli_rvs {rng} _ _ _.
Arguments beta_logpdf {rng} _ _ _ _.
Arguments beta_entropy {rng} _ _ _.
Arguments beta_rvs {rng} _ _ _ _.
Arguments dirichlet_logpdf {rng} _ _ _.
Arguments dirichlet_entropy {rng} _ _.
Arguments dirichlet_rvs {rng} _ _ _.
Arguments invgamma_logpdf {rng} _ _ _ _.
Arguments invgamma_entropy {rng} _ _ _.
Arguments invgamma_rvs {rng} _ _ _ _.
Arguments multinomial_logpmf {rng} _ _ _ _.
Arguments multinomial_entropy {rng} _ _ _.
Arguments multinomial_rvs {rng} _ _ _ _.
Arguments norm_logpdf {rng} _ _ _ _.
Arguments norm_entropy {rng} _ _.

(** ** Distributions *)

(** The class of a distribution object together with the attributes that
    class adds to the base ones. *)
Inductive class_attrs : Type :=
| Bernoulli (p : vector)
| Beta (alpha beta : vector)
| Dirichlet (K : Z) (alpha : ndarray)
| InvGamma (alpha beta : vector)
| Multinomial (K : Z) (pi : ndarray)
| Normal (loc scale : vector)
| PointMass (params : vector).

Record Distribution : Type := mk_Distribution {
  num_factors : Z;
  num_vars : Z;
  num_params : Z;
  sample_tensor : bool;
  attrs : class_attrs
}.

(** ['reparam' in layer.__class__.__dict__]: only [Normal] defines it. *)
Definition defines_reparam (layer : Distribution) : bool :=
  match attrs layer with
  | Normal _ _ => true
  | _ => false
  end.

(** ['entropy' in layer.__class__.__dict__]: every class but [PointMass]. *)
Definition defines_entropy (layer : Distribution) : bool :=
  match attrs layer with
  | PointMass _ => false
  | _ => true
  end.

(** [isinstance(layer, Normal)]. *)
Definition isinstance_Normal (layer : Distribution) : bool :=
  match attrs layer with
  | Normal _ _ => true
  | _ => false
  end.

(** ** The composite family *)

(** The address of a Python list object. *)
Definition loc : Type := nat.

(** The store of list objects that hold layers. *)
Abbreviation heap := (gmap loc (list Distribution)).

(** The list object created once, when [Variational.__init__] is defined,
    for its default argument [layers=[]]. *)
Definition default_layers : loc := 0%nat.

(** The store before any [Variational] has been built. *)
Definition initial_heap : heap := {[ default_layers := [] ]}.

(** A list display [[l1, ..., ln]] evaluates to a new list object. *)
Definition new_list (ls : list Distribution) (h : heap) : loc * heap :=
  let l := fresh (dom h) in (l, <[l := ls]> h).

Module Variational.

Record t : Type := mk {
  layers : loc;
  num_factors : Z;
  num_vars : Z;
  num_params : Z;
  is_reparam : bool;
  is_normal : bool;
  is_entropy : bool;
  sample_tensor : list bool
}.

End Variational.

(** The builtins [sum] and [all] on a list. *)
Definition py_sum (l : list Z) : Z := fold_left Z.add l 0.

Definition py_all (l : list bool) : bool := forallb (fun b : bool => b) l.

Section Edward.

Context {rng : Type}.

(** One draw of [tf.random_normal]. *)
Variable random_normal_draw : rng -> R * rng.

Variable stats : edward_stats rng.

(** *** Computations that draw random numbers and may raise *)

Definition M (A : Type) : Type := rng -> result A * rng.

Definition mret {A : Type} (a : A) : M A := fun g => (Ok a, g).

Definition mraise {A : Type} (e : exn) : M A := fun g => (Raise e, g).

Definition mbind {A B : Type} (m : M A) (k : A -> M B) : M B :=
  fun g =>
    match m g with
    | (Ok a, g') => k a g'
    | (Raise e, g') => (Raise e, g')
    end.

Definition lift {A : Type} (r : result A) : M A := fun g => (r, g).

Definition draw {A : Type} (f : rng -> A * rng) : M A :=
  fun g => let (a, g') := f g in (Ok a, g').

Notation "x <~ m ;; k" := (mbind m (fun x => k))
  (at level 100, m at next level, right associativity).

(** A loop body run [n] times, collecting the results. *)
Fixpoint repeatM {A : Type} (n : nat) (m : M A) : M (list A) :=
  match n with
  | O => mret []
  | S n' =>
      a <~ m ;;
      rest <~ repeatM n' m ;;
      mret (a :: rest)
  end.

(** A loop over a list whose body draws and may raise. *)
Fixpoint forM {A B : Type} (l : list A) (f : A -> M B) : M (list B) :=
  match l with
  | [] => mret []
  | a :: rest =>
      b <~ f a ;;
      bs <~ forM rest f ;;
      mret (b :: bs)
  end.

(** [tf.random_normal([n])]. *)
Definition random_normal1 (n : Z) : M vector :=
  repeatM (Z.to_nat n) (draw random_normal_draw).

(** [tf.random_normal([n, m])], drawn row by row. *)
Definition random_normal2 (n m : Z) : M ndarray :=
  rs <~ repeatM (Z.to_nat n) (random_normal1 m) ;;
  mret {| ncols := Z.to_nat m; rows := rs |}.

(** *** Constructors *)

Definition Bernoulli_init (num_factors : Z) (p : option vector) : M Distribution :=
  let num_vars := num_factors in
  let num_params := num_factors in
  p <~ match p with
       | None =>
           p_unconst <~ random_normal1 num_params ;;
           mret (map tf_sigmoid p_unconst)
       | Some p => mret p
       end ;;
  mret {| num_factors := num_factors; num_vars := num_vars;
          num_params := num_params; sample_tensor := false;
          attrs := Bernoulli p |}.

Definition Beta_init (num_factors : Z) (alpha beta : option vector) : M Distribution :=
  let num_vars := num_factors in
  let num_params := 2 * num_factors in
  alpha <~ match alpha with
           | None =>
               alpha_unconst <~ random_normal1 num_vars ;;
               mret (map tf_softplus alpha_unconst)
           | Some alpha => mret alpha
           end ;;
  beta <~ match beta with
          | None =>
              beta_unconst <~ random_normal1 num_vars ;;
              mret (map tf_softplus beta_unconst)
          | Some beta => mret beta
          end ;;
  mret {| num_factors := num_factors; num_vars := num_vars;
          num_params := num_params; sample_tensor := false;
          attrs := Beta alpha beta |}.

Definition Dirichlet_init (shape : list Z) (alpha : option ndarray) : M Distribution :=
  num_factors <~ lift (py_index shape 0) ;;
  K <~ lift (py_index shape (-1)) ;;
  let num_vars := K * num_factors in
  let num_params := K * num_factors in
  alpha <~ match alpha with
           | None =>
               alpha_unconst <~ random_normal2 num_factors K ;;
               mret (map2d tf_softplus alpha_unconst)
           | Some alpha => mret alpha
           end ;;
  mret {| num_factors := num_factors; num_vars := num_vars;
          num_params := num_params; sample_tensor := false;
          attrs := Dirichlet K alpha |}.

Definition InvGamma_init (num_factors : Z) (alpha beta : option vector) : M Distribution :=
  let num_vars := num_factors in
  let num_params := 2 * num_factors in
  alpha <~ match alpha with
           | None =>
               alpha_unconst <~ random_normal1 num_vars ;;
               mret (map (fun t => (tf_softplus t + 1 / 100)%R) alpha_unconst)
           | Some alpha => mret alpha
           end ;;
  beta <~ match beta with
          | None =>
              beta_unconst <~ random_normal1 num_vars ;;
              mret (map (fun t => (tf_softplus t + 1 / 100)%R) beta_unconst)
          | Some beta => mret beta
          end ;;
  mret {| num_factors := num_factors; num_vars := num_vars;
          num_params := num_params; sample_tensor := false;
          attrs := InvGamma alpha beta |}.

(** [-tf.log(tf.cast(K - 1 - tf.range(K-1)))]. *)
Definition stick_offsets (K : Z) : vector :=
  map (fun j : nat => (- ln (IZR (K - 1 - Z.of_nat j)))%R) (seq 0 (Z.to_nat (K - 1))).

(** The default [pi]: a real [num_factors x (K-1)] array is carried, row by
    row, to the [K]-dimensional simplex. *)
Definition stick_breaking (num_factors K : Z) (pi_unconst : ndarray) : result ndarray :=
  let eq := stick_offsets K in
  let x := {| ncols := ncols pi_unconst;
              rows := map (zip_with (fun e u => tf_sigmoid (e + u)) eq) (rows pi_unconst) |} in
  let pil := concat1 x (tf_ones (Z.to_nat num_factors) 1) in
  let piu := concat1 (tf_ones (Z.to_nat num_factors) 1) (map2d (fun v => (1 - v)%R) x) in
  (S <- rmap cumprod (rows piu) ;;
   Ok (mul2 {| ncols := ncols piu; rows := S |} pil))%result.

Definition Multinomial_init (shape : list Z) (pi : option ndarray) : M Distribution :=
  num_factors <~ lift (py_index shape 0) ;;
  K <~ lift (py_index shape (-1)) ;;
  if K =? 1 then
    mraise (ValueError "Multinomial is not supported for K=1. Use Bernoulli.")
  else
    let num_vars := K * num_factors in
    let num_params := K * num_factors in
    pi <~ match pi with
          | None =>
              pi_unconst <~ random_normal2 num_factors (K - 1) ;;
              lift (stick_breaking num_factors K pi_unconst)
          | Some pi => mret pi
          end ;;
    mret {| num_factors := num_factors; num_vars := num_vars;
            num_params := num_params; sample_tensor := false;
            attrs := Multinomial K pi |}.

Definition Normal_init (num_factors : Z) (loc scale : option vector) : M Distribution :=
  let num_vars := num_factors in
  let num_params := 2 * num_factors in
  loc <~ match loc with
         | None => random_normal1 num_vars
         | Some loc => mret loc
         end ;;
  scale <~ match scale with
           | None =>
               scale_unconst <~ random_normal1 num_vars ;;
               mret (map tf_softplus scale_unconst)
           | Some scale => mret scale
           end ;;
  mret {| num_factors := num_factors; num_vars := num_vars;
          num_params := num_params; sample_tensor := true;
          attrs := Normal loc scale |}.

Definition PointMass_init (num_vars : Z) (params : option vector) : M Distribution :=
  params <~ match params with
            | None => random_normal1 num_vars
            | Some params => mret params
            end ;;
  mret {| num_factors := 1; num_vars := num_vars;
          num_params := num_vars; sample_tensor := true;
          attrs := PointMass params |}.

(** *** Sampling *)

(** [Distribution.sample_noise]: the base class has no noise distribution. *)
Definition Distribution_sample_noise (self : Distribution) (size : Z) : M ndarray :=
  mraise NotImplementedError.

(** [Distribution.reparam]. *)
Definition Distribution_reparam (self : Distribution) (eps : ndarray) : result ndarray :=
  Raise NotImplementedError.

Definition Normal_sample_noise (self : Distribution) (size : Z) : M ndarray :=
  random_normal2 size (num_vars self).

(** [loc + eps * scale], the parameters broadcast along the rows of [eps]. *)
Definition Normal_reparam (loc scale : vector) (eps : ndarray) : result ndarray :=
  Ok {| ncols := ncols eps;
        rows := map (fun r : vector => zip_with Rplus loc (zip_with Rmult r scale))
                    (rows eps) |}.

(** Method lookup: a class that does not define [sample_noise] inherits the
    one of [Distribution]. *)
Definition sample_noise (self : Distribution) (size : Z) : M ndarray :=
  match attrs self with
  | Normal _ _ => Normal_sample_noise self size
  | _ => Distribution_sample_noise self size
  end.

Definition reparam (self : Distribution) (eps : ndarray) : result ndarray :=
  match attrs self with
  | Normal loc scale => Normal_reparam loc scale eps
  | _ => Distribution_reparam self eps
  end.

(** [Distribution.sample]: draw noise, then reparameterize it. *)
Definition Distribution_sample (self : Distribution) (size : Z) : M ndarray :=
  eps <~ sample_noise self size ;;
  lift (reparam self eps).

(** [np.zeros((n, m))]. *)
Definition np_zeros (n m : Z) : result ndarray :=
  if (n <? 0) || (m <? 0) then Raise (ValueError "negative dimensions are not allowed")
  else Ok {| ncols := Z.to_nat m;
             rows := replicate (Z.to_nat n) (replicate (Z.to_nat m) 0%R) |}.

(** [x[:, d] = col], for a column with one entry per row of [x]. *)
Definition set_col (x : ndarray) (d : Z) (col : vector) : result ndarray :=
  let n := Z.of_nat (ncols x) in
  let j := if d <? 0 then d + n else d in
  if (0 <=? j) && (j <? n) then
    Ok {| ncols := ncols x;
          rows := zip_with (fun (r : vector) (v : R) => <[Z.to_nat j := v]> r) (rows x) col |}
  else Raise IndexError.

(** [x[:, start:final] = block], for a block with one row per row of [x];
    a block of another width cannot be broadcast into the slice. *)
Definition set_block (x : ndarray) (start final : Z) (block : list vector) : result ndarray :=
  let n := Z.of_nat (ncols x) in
  let a := Z.to_nat (slice_bound start n) in
  let b := Z.to_nat (slice_bound final n) in
  if forallb (fun v : vector => Nat.eqb (length v) (b - a)) block then
    Ok {| ncols := ncols x;
          rows := zip_with (fun r v : vector => take a r ++ v ++ drop (Nat.max a b) r)
                           (rows x) block |}
  else Raise (ValueError "could not broadcast input array").

(** A [for] loop that updates one variable. *)
Fixpoint foldM {A S : Type} (l : list A) (body : S -> A -> M S) (s : S) : M S :=
  match l with
  | [] => mret s
  | a :: rest =>
      s' <~ body s a ;;
      foldM rest body s'
  end.

(** [rvs(..., size=size)]: [size] draws in a row. *)
Definition rvs {A : Type} (one : rng -> A * rng) (size : Z) : M (list A) :=
  repeatM (Z.to_nat size) (draw one).

Definition Bernoulli_sample (self : Distribution) (p : vector) (size : Z) : M ndarray :=
  x <~ lift (np_zeros size (num_vars self)) ;;
  foldM (seqZ 0 (num_vars self))
        (fun x d =>
           pd <~ lift (py_index p d) ;;
           col <~ rvs (bernoulli_rvs stats pd) size ;;
           lift (set_col x d col))
        x.

Definition Beta_sample (self : Distribution) (a b : vector) (size : Z) : M ndarray :=
  x <~ lift (np_zeros size (num_vars self)) ;;
  foldM (seqZ 0 (num_vars self))
        (fun x d =>
           ad <~ lift (py_index a d) ;;
           bd <~ lift (py_index b d) ;;
           col <~ rvs (beta_rvs stats ad bd) size ;;
           lift (set_col x d col))
        x.

Definition Dirichlet_sample (self : Distribution) (K : Z) (alpha : ndarray) (size : Z)
  : M ndarray :=
  x <~ lift (np_zeros size (num_vars self)) ;;
  foldM (seqZ 0 (num_factors self))
        (fun x i =>
           alpha_i <~ lift (get_row alpha i) ;;
           block <~ rvs (dirichlet_rvs stats alpha_i) size ;;
           lift (set_block x (i * K) ((i + 1) * K) block))
        x.

Definition InvGamma_sample (self : Distribution) (a b : vector) (size : Z) : M ndarray :=
  x <~ lift (np_zeros size (num_vars self)) ;;
  foldM (seqZ 0 (num_vars self))
        (fun x d =>
           ad <~ lift (py_index a d) ;;
           bd <~ lift (py_index b d) ;;
           col <~ rvs (invgamma_rvs stats ad bd) size ;;
           lift (set_col x d col))
        x.

Definition Multinomial_sample (self : Distribution) (K : Z) (pi : ndarray) (size : Z)
  : M ndarray :=
  x <~ lift (np_zeros size (num_vars self)) ;;
  foldM (seqZ 0 (num_factors self))
        (fun x i =>
           pi_i <~ lift (get_row pi i) ;;
           block <~ rvs (multinomial_rvs stats 1 pi_i) size ;;
           lift (set_block x (i * K) ((i + 1) * K) block))
        x.

(** [tf.pack([self.params]*size)]. A list repeated a non-positive number
    of times is empty, and packing takes at least one tensor: an empty
    list has no row to take the column dimension from and is refused. *)
Definition PointMass_sample (params : vector) (size : Z) : M ndarray :=
  if size <=? 0 then mraise (ValueError "pack of an empty list")
  else mret {| ncols := length params; rows := replicate (Z.to_nat size) params |}.

(** Method lookup for [sample]: [Normal] is the one class that keeps the
    inherited method. *)
Definition sample (self : Distribution) (size : Z) : M ndarray :=
  match attrs self with
  | Bernoulli p => Bernoulli_sample self p size
  | Beta a b => Beta_sample self a b size
  | Dirichlet K alpha => Dirichlet_sample self K alpha size
  | InvGamma a b => InvGamma_sample self a b size
  | Multinomial K pi => Multinomial_sample self K pi size
  | Normal _ _ => Distribution_sample self size
  | PointMass params => PointMass_sample params size
  end.

(** *** Log densities of one factor *)

Definition Distribution_log_prob_i (self : Distribution) (i : Z) (xs : ndarray)
  : result vector :=
  Raise NotImplementedError.

Definition Bernoulli_log_prob_i (self : Distribution) (p : vector) (i : Z) (xs : ndarray)
  : result vector :=
  if i >=? num_factors self then Raise IndexError
  else
    (col <- get_col xs i ;;
     p_i <- py_index p i ;;
     Ok (map (fun x => bernoulli_logpmf stats x p_i) col))%result.

Definition Beta_log_prob_i (self : Distribution) (alpha beta : vector) (i : Z) (xs : ndarray)
  : result vector :=
  if i >=? num_factors self then Raise IndexError
  else
    (col <- get_col xs i ;;
     alpha_i <- py_index alpha i ;;
     beta_i <- py_index beta i ;;
     Ok (map (fun x => beta_logpdf stats x alpha_i beta_i) col))%result.

Definition Dirichlet_log_prob_i (self : Distribution) (K : Z) (alpha : ndarray) (i : Z)
    (xs : ndarray) : result vector :=
  if i >=? num_factors self then Raise IndexError
  else
    (let x_i := slice_cols xs (i * K) ((i + 1) * K) in
     alpha_i <- get_row alpha i ;;
     Ok (map (fun x => dirichlet_logpdf stats x alpha_i) (rows x_i)))%result.

Definition InvGamma_log_prob_i (self : Distribution) (alpha beta : vector) (i : Z)
    (xs : ndarray) : result vector :=
  if i >=? num_factors self then Raise IndexError
  else
    (col <- get_col xs i ;;
     alpha_i <- py_index alpha i ;;
     beta_i <- py_index beta i ;;
     Ok (map (fun x => invgamma_logpdf stats x alpha_i beta_i) col))%result.

Definition Multinomial_log_prob_i (self : Distribution) (K : Z) (pi : ndarray) (i : Z)
    (xs : ndarray) : result vector :=
  if i >=? num_factors self then Raise IndexError
  else
    (let x_i := slice_cols xs (i * K) ((i + 1) * K) in
     pi_i <- get_row pi i ;;
     Ok (map (fun x => multinomial_logpmf stats x 1 pi_i) (rows x_i)))%result.

Definition Normal_log_prob_i (self : Distribution) (loc scale : vector) (i : Z)
    (xs : ndarray) : result vector :=
  if i >=? num_factors self then Raise IndexError
  else
    (loci <- py_index loc i ;;
     scalei <- py_index scale i ;;
     col <- get_col xs i ;;
     Ok (map (fun x => norm_logpdf stats x loci scalei) col))%result.

(** [tf.cast(tf.equal(a, b), dtype=tf.float32)] on one entry. *)
Definition tf_equal_cast (a b : R) : R :=
  if Req_dec_T a b then 1%R else 0%R.

Definition PointMass_log_prob_i (self : Distribution) (params : vector) (i : Z)
    (xs : ndarray) : result vector :=
  if i >=? num_factors self then Raise IndexError
  else
    (col <- get_col xs i ;;
     params_i <- py_index params i ;;
     Ok (map (fun x => tf_equal_cast x params_i) col))%result.

(** Method lookup for [log_prob_i]: every class defines its own. *)
Definition log_prob_i (self : Distribution) (i : Z) (xs : ndarray) : result vector :=
  match attrs self with
  | Bernoulli p => Bernoulli_log_prob_i self p i xs
  | Beta alpha beta => Beta_log_prob_i self alpha beta i xs
  | Dirichlet K alpha => Dirichlet_log_prob_i self K alpha i xs
  | InvGamma alpha beta => InvGamma_log_prob_i self alpha beta i xs
  | Multinomial K pi => Multinomial_log_prob_i self K pi i xs
  | Normal loc scale => Normal_log_prob_i self loc scale i xs
  | PointMass params => PointMass_log_prob_i self params i xs
  end.

(** *** Entropies *)

Definition Distribution_entropy (self : Distribution) : result R :=
  Raise NotImplementedError.

Definition Bernoulli_entropy (p : vector) : result R :=
  Ok (reduce_sum (map (bernoulli_entropy stats) p)).

Definition Beta_entropy (alpha beta : vector) : result R :=
  Ok (reduce_sum (zip_with (beta_entropy stats) alpha beta)).

Definition Dirichlet_entropy (alpha : ndarray) : result R :=
  Ok (reduce_sum (map (dirichlet_entropy stats) (rows alpha))).

Definition InvGamma_entropy (alpha beta : vector) : result R :=
  Ok (reduce_sum (zip_with (invgamma_entropy stats) alpha beta)).

Definition Multinomial_entropy (pi : ndarray) : result R :=
  Ok (reduce_sum (map (multinomial_entropy stats 1) (rows pi))).

Definition Normal_entropy (scale : vector) : result R :=
  Ok (reduce_sum (map (norm_entropy stats) scale)).

(** Method lookup for [entropy]: [PointMass] inherits the base method. *)
Definition entropy (self : Distribution) : result R :=
  match attrs self with
  | Bernoulli p => Bernoulli_entropy p
  | Beta alpha beta => Beta_entropy alpha beta
  | Dirichlet _ alpha => Dirichlet_entropy alpha
  | InvGamma alpha beta => InvGamma_entropy alpha beta
  | Multinomial _ pi => Multinomial_entropy pi
  | Normal _ scale => Normal_entropy scale
  | PointMass _ => Distribution_entropy self
  end.

(** *** Variational *)

(** [Variational.__init__(self, layers)]: [layers] is the list object the
    caller passed, or [default_layers] when the argument is left out; the
    new object keeps that very list. *)
Definition Variational_init (layers : loc) (h : heap) : Variational.t :=
  match h !!! layers with
  | [] =>
      {| Variational.layers := layers;
         Variational.num_factors := 0;
         Variational.num_vars := 0;
         Variational.num_params := 0;
         Variational.is_reparam := true;
         Variational.is_normal := true;
         Variational.is_entropy := true;
         Variational.sample_tensor := [] |}
  | ls =>
      {| Variational.layers := layers;
         Variational.num_factors := py_sum (map num_factors ls);
         Variational.num_vars := py_sum (map num_vars ls);
         Variational.num_params := py_sum (map num_params ls);
         Variational.is_reparam := py_all (map defines_reparam ls);
         Variational.is_normal := py_all (map isinstance_Normal ls);
         Variational.is_entropy := py_all (map defines_entropy ls);
         Variational.sample_tensor := map sample_tensor ls |}
  end.

(** [Variational.add(self, layer)]: [self.layers += [layer]] extends the
    list object in place, the aggregates are updated from the new layer. *)
Definition Variational_add (self : Variational.t) (layer : Distribution) (h : heap)
  : Variational.t * heap :=
  let l := Variational.layers self in
  let h' := <[l := (h !!! l) ++ [layer]]> h in
  ({| Variational.layers := l;
      Variational.num_factors := Variational.num_factors self + num_factors layer;
      Variational.num_vars := Variational.num_vars self + num_vars layer;
      Variational.num_params := Variational.num_params self + num_params layer;
      Variational.is_reparam := Variational.is_reparam self && defines_reparam layer;
      Variational.is_normal := Variational.is_normal self && isinstance_Normal layer;
      Variational.is_entropy := Variational.is_entropy self && defines_entropy layer;
      Variational.sample_tensor :=
        Variational.sample_tensor self ++ [sample_tensor layer] |},
   h').

(** The loop of [Variational.log_prob_i]. The method of the owning layer is
    looked up when it is called; it is the parameter [layer_log_prob_i]. *)
Fixpoint log_prob_i_loop {A : Type}
    (layer_log_prob_i : Distribution -> Z -> ndarray -> result A)
    (layers : list Distribution) (i : Z) (xs : ndarray) (start final : Z) : result A :=
  match layers with
  | [] => Raise IndexError
  | layer :: rest =>
      let final := final + num_vars layer in
      if i <? num_factors layer then
        layer_log_prob_i layer i (slice_cols xs start final)
      else
        let i := i - num_factors layer in
        let start := final in
        log_prob_i_loop layer_log_prob_i rest i xs start final
  end.

Definition Variational_log_prob_i_with {A : Type}
    (layer_log_prob_i : Distribution -> Z -> ndarray -> result A)
    (self : Variational.t) (i : Z) (xs : ndarray) (h : heap) : result A :=
  log_prob_i_loop layer_log_prob_i (h !!! Variational.layers self) i xs 0 0.

Definition Variational_log_prob_i (self : Variational.t) (i : Z) (xs : ndarray) (h : heap)
  : result vector :=
  Variational_log_prob_i_with log_prob_i self i xs h.

(** The loop of [Variational.entropy]; [out] starts at [0.0]. *)
Fixpoint entropy_loop (layers : list Distribution) (out : R) : result R :=
  match layers with
  | [] => Ok out
  | layer :: rest =>
      (e <- entropy layer ;;
       entropy_loop rest (out + e)%R)%result
  end.

Definition Variational_entropy (self : Variational.t) (h : heap) : result R :=
  entropy_loop (h !!! Variational.layers self) 0%R.

End Edward.

Arguments M rng A : clear implicits.

(** ** Auxiliary definitions for the statements *)

(** The running products of [values] started from [prev]. *)
Fixpoint running (prev : R) (values : list R) : list R :=
  match values with
  | [] => []
  | val :: rest => (prev * val)%R :: running (prev * val)%R rest
  end.

(** One row of the default [pi], from one row [u] of [pi_unconst]. *)
Definition stick_row (K : Z) (u : vector) : vector :=
  let x := zip_with (fun e u => tf_sigmoid (e + u)) (stick_offsets K) u in
  zip_with Rmult (cumprod_loop (1%R :: map (fun v => (1 - v)%R) x) [] 1%R) (x ++ [1%R]).

(** A point of the probability simplex. *)
Definition on_simplex (row : vector) : Prop :=
  Forall (fun v => (0 <= v)%R) row /\ reduce_sum row = 1%R.

(** [pi] holds one point of the [K]-simplex for every factor. *)
Definition simplex_rows (num_factors K : Z) (pi : ndarray) : Prop :=
  nrows pi = Z.to_nat num_factors /\
  ncols pi = Z.to_nat K /\
  Forall (fun row : vector => length row = Z.to_nat K /\ on_simplex row) (rows pi).

(** A generator without state whose every normal draw is [0], and an
    instance of the statistics whose every function is constant: the
    concrete environment of the examples. *)
Definition zero_draw (g : unit) : R * unit := (0%R, g).

Definition zero_stats : edward_stats unit := {|
  bernoulli_logpmf := fun _ _ => 0%R;
  bernoulli_entropy := fun _ => 0%R;
  bernoulli_rvs := fun _ g => (0%R, g);
  beta_logpdf := fun _ _ _ => 0%R;
  beta_entropy := fun _ _ => 0%R;
  beta_rvs := fun _ _ g => (0%R, g);
  dirichlet_logpdf := fun _ _ => 0%R;
  dirichlet_entropy := fun _ => 0%R;
  dirichlet_rvs := fun alpha g => (alpha, g);
  invgamma_logpdf := fun _ _ _ => 0%R;
  invgamma_entropy := fun _ _ => 0%R;
  invgamma_rvs := fun _ _ g => (0%R, g);
  multinomial_logpmf := fun _ _ _ => 0%R;
  multinomial_entropy := fun _ _ => 0%R;
  multinomial_rvs := fun _ pi g => (pi, g);
  norm_logpdf := fun _ _ _ => 0%R;
  norm_entropy := fun _ => 0%R
|}.

(** The message of the error raised by [Multinomial] for [K = 1]. *)
Definition K1_message : string :=
  "Multinomial is not supported for K=1. Use Bernoulli.".

(** The sum of a field over a sequence of layers. *)
Definition sum_over (f : Distribution -> Z) (ls : list Distribution) : Z :=
  fold_right (fun l acc => f l + acc) 0 ls.

(** The aggregate fields of [v] are those of the layer sequence [ls]. *)
Definition aggregates (ls : list Distribution) (v : Variational.t) : Prop :=
  Variational.num_factors v = sum_over num_factors ls /\
  Variational.num_vars v = sum_over num_vars ls /\
  Variational.num_params v = sum_over num_params ls /\
  (Variational.is_reparam v = true <-> Forall (fun l => defines_reparam l = true) ls) /\
  (Variational.is_normal v = true <-> Forall (fun l => isinstance_Normal l = true) ls) /\
  (Variational.is_entropy v = true <-> Forall (fun l => defines_entropy l = true) ls).

(** The invariant of a [Variational] in a store: its aggregates are those
    of the list its [layers] attribute refers to. *)
Definition invariant (h : heap) (v : Variational.t) : Prop :=
  aggregates (h !!! Variational.layers v) v.

(** [Normal(1, loc=[0.0], scale=[1.0])], as [Normal_init] builds it. *)
Definition unit_normal : Distribution :=
  {| num_factors := 1; num_vars := 1; num_params := 2; sample_tensor := true;
     attrs := Normal [0%R] [1%R] |}.

(** The shape conventions of the constructors: the parameter tensors
    have one entry (or one row) per factor, and the batch has a column for
    every factor that is read. *)
Definition well_formed (d : Distribution) : Prop :=
  0 <= num_factors d /\ 0 <= num_vars d /\
  match attrs d with
  | Bernoulli p =>
      num_vars d = num_factors d /\ length p = Z.to_nat (num_factors d)
  | Beta alpha beta | InvGamma alpha beta =>
      num_vars d = num_factors d /\ length alpha = Z.to_nat (num_factors d)
      /\ length beta = Z.to_nat (num_factors d)
  | Dirichlet K alpha | Multinomial K alpha =>
      num_vars d = K * num_factors d /\ nrows alpha = Z.to_nat (num_factors d)
  | Normal loc scale =>
      num_vars d = num_factors d /\ length loc = Z.to_nat (num_factors d)
      /\ length scale = Z.to_nat (num_factors d)
  | PointMass params =>
      num_factors d = 1 /\ 1 <= num_vars d /\ length params = Z.to_nat (num_vars d)
  end.

(** [d] is an object returned by one of the seven constructors. *)
Definition built {rng : Type} (random_normal_draw : rng -> R * rng) (d : Distribution)
  : Prop :=
  exists g g',
    (exists n p, Bernoulli_init random_normal_draw n p g = (Ok d, g'))
    \/ (exists n a b, Beta_init random_normal_draw n a b g = (Ok d, g'))
    \/ (exists shape a, Dirichlet_init random_normal_draw shape a g = (Ok d, g'))
    \/ (exists n a b, InvGamma_init random_normal_draw n a b g = (Ok d, g'))
    \/ (exists shape pi, Multinomial_init random_normal_draw shape pi g = (Ok d, g'))
    \/ (exists n loc scale, Normal_init random_normal_draw n loc scale g = (Ok d, g'))
    \/ (exists n params, PointMass_init random_normal_draw n params g = (Ok d, g')).

(** [Normal(3, ...)] and [Bernoulli(2, ...)] with explicit parameters. *)
Definition normal3 : Distribution :=
  {| num_factors := 3; num_vars := 3; num_params := 6; sample_tensor := true;
     attrs := Normal [0%R; 0%R; 0%R] [1%R; 1%R; 1%R] |}.

Definition bernoulli2 : Distribution :=
  {| num_factors := 2; num_vars := 2; num_params := 2; sample_tensor := false;
     attrs := Bernoulli [(1 / 2)%R; (1 / 2)%R] |}.

(** A method that records the arguments it is called with. *)
Definition record_call (layer : Distribution) (i : Z) (xs : ndarray)
  : result (Distribution * Z * ndarray) :=
  Ok (layer, i, xs).

(** [Variational([l1, ..., ln])]: the list display is a new list object. *)
Definition Variational_of_list (ls : list Distribution) (h : heap)
  : Variational.t * heap :=
  let (l, h') := new_list ls h in (Variational_init l h', h').

(** What holds of a Variational [v] made of a [Normal] with three factors
    followed by the [Bernoulli] [L2] with two: the totals, the flag, and
    the call that [log_prob_i(3, xs)] makes on [L2], whichever method
    [call] the layer answers with. *)
Definition normal3_bernoulli2_facts (L2 : Distribution) (v : Variational.t) (h : heap)
  : Prop :=
  Variational.num_factors v = 5 /\
  Variational.num_vars v = 5 /\
  Variational.is_reparam v = false /\
  forall (A : Type) (call : Distribution -> Z -> ndarray -> result A) (xs : ndarray),
    Variational_log_prob_i_with call v 3 xs h = call L2 0 (slice_cols xs 3 5).

(** A batch of one row over five columns. *)
Definition one_row_batch : ndarray :=
  {| ncols := 5; rows := [[0%R; 0%R; 0%R; 0%R; 1%R]] |}.

(** [PointMass(2, params=[0.0, 7.0])]. *)
Definition pointmass2 : Distribution :=
  {| num_factors := 1; num_vars := 2; num_params := 2; sample_tensor := true;
     attrs := PointMass [0%R; 7%R] |}.

(** A computation that never ends in [NotImplementedError]. *)
Definition never_unsupported {rng A : Type} (m : M rng A) : Prop :=
  forall g, (m g).1 <> Raise NotImplementedError.

(** [PointMass(0)], a point mass over no variable, and a batch of one row
    and no column. *)
Definition pointmass0 : Distribution :=
  {| num_factors := 1; num_vars := 0; num_params := 0; sample_tensor := true;
     attrs := PointMass [] |}.

Definition empty_row_batch : ndarray := {| ncols := 0; rows := [[]] |}.

(** [PointMass(1, params=[0.0])]. *)
Definition pointmass1 : Distribution :=
  {| num_factors := 1; num_vars := 1; num_params := 1; sample_tensor := true;
     attrs := PointMass [0%R] |}.

(** ** edward.util: elementary functions *)

(** [tf.clip_by_value(t, lo, hi)]. *)
Definition tf_clip_by_value (t lo hi : R) : R := Rmin (Rmax t lo) hi.

(** [logit(x)]: the argument is clipped to [[1e-8, 1 - 1e-8]] first. *)
Definition logit (x : R) : R :=
  let x := tf_clip_by_value x (1 / 10 ^ 8) (1 - 1 / 10 ^ 8) in
  (ln x - ln (1 - x))%R.

(** [softplus(x)]. *)
Definition softplus (x : R) : R := ln (1 + exp x).

(** [tf.reduce_max] on a rank-1 tensor; no real number is the maximum of
    an empty one. *)
Definition reduce_max (x : vector) : option R :=
  match x with
  | [] => None
  | x0 :: rest => Some (fold_left Rmax rest x0)
  end.

(** [log_sum_exp(x)] on a rank-1 tensor. *)
Definition log_sum_exp (x : vector) : option R :=
  match reduce_max x with
  | None => None
  | Some x_max =>
      Some (x_max + ln (reduce_sum (map (fun t => exp (t - x_max)) x)))%R
  end.

(** [rbf(x, y, sigma, l)] on one entry. *)
Definition rbf (x y sigma l : R) : R :=
  (sigma ^ 2 * exp (-1 / (2 * l ^ 2) * (x - y) ^ 2))%R.

(** [multivariate_rbf(x, y, sigma, l)] on two rank-1 tensors of one length. *)
Definition multivariate_rbf (x y : vector) (sigma l : R) : R :=
  (sigma ^ 2
   * exp (-1 / (2 * l ^ 2) * reduce_sum (map (fun d => d ^ 2) (zip_with Rminus x y))))%R.

(** The product of the entries of a list. *)
Definition product (l : list R) : R := fold_right Rmult 1%R l.

(** [1/(m+1), 1/m, ..., 1/2]: the fractions broken off a stick by the
    stick-breaking map at the zero vector. *)
Fixpoint harmonic (m : nat) : list R :=
  match m with
  | O => []
  | S m' => (1 / (1 + INR m))%R :: harmonic m'
  end.


(** ** Properties *)

Section Properties.

Context {rng : Type}.
Variable random_normal_draw : rng -> R * rng.
Variable stats : edward_stats rng.

(** *** The cumulative product and the stick-breaking construction *)

Lemma cumprod_loop_running (values out : list R) (prev : R) :
  cumprod_loop values out prev = out ++ running prev values.
Proof.
  revert out prev.
  induction values as [|val rest IH]; intros out prev; simpl.
  - by rewrite app_nil_r.
  - rewrite IH. by rewrite <- app_assoc.
Qed.

Lemma length_running (prev : R) (values : list R) :
  length (running prev values) = length values.
Proof.
  revert prev. induction values as [|val rest IH]; intros prev; simpl; [done|].
  by rewrite IH.
Qed.

Lemma tf_sigmoid_bounds (t : R) : (0 < tf_sigmoid t < 1)%R.
Proof.
  unfold tf_sigmoid.
  pose proof (exp_pos (- t)) as Hexp.
  split.
  - apply Rdiv_lt_0_compat; lra.
  - apply (Rmult_lt_reg_r (1 + exp (- t))); [lra|].
    unfold Rdiv. rewrite Rmult_assoc, Rinv_l by lra. lra.
Qed.

(** What is left of the stick after the breaks [x], times what each break
    takes: the pieces add up to the stick [c] one started with. *)
Lemma stick_pieces_sum (x : list R) (c : R) :
  reduce_sum (zip_with Rmult (c :: running c (map (fun v => (1 - v)%R) x)) (x ++ [1%R])) = c.
Proof.
  revert c. induction x as [|a x IH]; intros c; simpl.
  - lra.
  - specialize (IH (c * (1 - a))%R). simpl in IH. rewrite IH. lra.
Qed.

Lemma stick_pieces_nonneg (x : list R) (c : R) :
  (0 <= c)%R ->
  Forall (fun a => (0 <= a <= 1)%R) x ->
  Forall (fun v => (0 <= v)%R)
         (zip_with Rmult (c :: running c (map (fun v => (1 - v)%R) x)) (x ++ [1%R])).
Proof.
  intros Hc Hx. revert c Hc.
  induction Hx as [|a x Ha Hx IH]; intros c Hc; simpl.
  - constructor; [lra | constructor].
  - constructor; [nra|].
    apply (IH (c * (1 - a))%R). nra.
Qed.

Lemma stick_pieces_length (x : list R) (c : R) :
  length (zip_with Rmult (c :: running c (map (fun v => (1 - v)%R) x)) (x ++ [1%R]))
  = S (length x).
Proof.
  rewrite length_zip_with, length_app. cbn [length].
  rewrite length_running, length_map. lia.
Qed.

Lemma stick_offsets_length (K : Z) : length (stick_offsets K) = Z.to_nat (K - 1).
Proof. unfold stick_offsets. by rewrite length_map, length_seq. Qed.

Lemma stick_row_unfold (K : Z) (u : vector) :
  stick_row K u =
  let x := zip_with (fun e u => tf_sigmoid (e + u)) (stick_offsets K) u in
  zip_with Rmult ((1 * 1)%R :: running (1 * 1)%R (map (fun v => (1 - v)%R) x)) (x ++ [1%R]).
Proof. unfold stick_row. by rewrite cumprod_loop_running. Qed.

Lemma stick_row_simplex (K : Z) (u : vector) : on_simplex (stick_row K u).
Proof.
  rewrite stick_row_unfold. cbv zeta. split.
  - apply stick_pieces_nonneg; [lra|].
    apply Forall_forall. intros a Ha.
    apply elem_of_zip_with in Ha as (e & v & -> & _ & _).
    pose proof (tf_sigmoid_bounds (e + v)). lra.
  - rewrite stick_pieces_sum. lra.
Qed.

Lemma stick_row_length (K : Z) (u : vector) :
  length u = Z.to_nat (K - 1) -> length (stick_row K u) = S (Z.to_nat (K - 1)).
Proof.
  intros Hu. rewrite stick_row_unfold. cbv zeta.
  rewrite stick_pieces_length, length_zip_with, stick_offsets_length. lia.
Qed.

(** *** Computations that draw *)

Lemma mbind_ok {A B : Type} (m : M rng A) (k : A -> M rng B) (g g' : rng) (a : A) :
  m g = (Ok a, g') -> mbind m k g = k a g'.
Proof. intros H. unfold mbind. by rewrite H. Qed.

Lemma mbind_raise {A B : Type} (m : M rng A) (k : A -> M rng B) (g g' : rng) (e : exn) :
  m g = (Raise e, g') -> mbind m k g = (Raise e, g').
Proof. intros H. unfold mbind. by rewrite H. Qed.

Lemma draw_ok {A : Type} (f : rng -> A * rng) (g : rng) :
  exists a g', draw f g = (Ok a, g').
Proof. unfold draw. destruct (f g) as [a g']. eauto. Qed.

Lemma repeatM_ok {A : Type} (P : A -> Prop) (m : M rng A) :
  (forall g, exists a g', m g = (Ok a, g') /\ P a) ->
  forall n g, exists l g', repeatM n m g = (Ok l, g') /\ length l = n /\ Forall P l.
Proof.
  intros Hm. induction n as [|n IH]; intros g; simpl.
  - exists [], g. by repeat split.
  - destruct (Hm g) as (a & g1 & Ha & HP).
    destruct (IH g1) as (l & g2 & Hl & Hlen & HF).
    exists (a :: l), g2.
    rewrite (mbind_ok _ _ _ _ _ Ha), (mbind_ok _ _ _ _ _ Hl).
    repeat split; simpl; auto.
Qed.

Lemma random_normal1_ok (n : Z) (g : rng) :
  exists v g', random_normal1 random_normal_draw n g = (Ok v, g')
               /\ length v = Z.to_nat n.
Proof.
  destruct (repeatM_ok (fun _ => True) (draw random_normal_draw)) 
    with (n := Z.to_nat n) (g := g) as (l & g' & Hl & Hlen & _).
  - intros g0. destruct (draw_ok random_normal_draw g0) as (a & g1 & H). eauto.
  - eauto.
Qed.

Lemma random_normal2_ok (n m : Z) (g : rng) :
  exists a g', random_normal2 random_normal_draw n m g = (Ok a, g')
               /\ nrows a = Z.to_nat n /\ ncols a = Z.to_nat m /\ shape_ok a.
Proof.
  destruct (repeatM_ok (fun v : vector => length v = Z.to_nat m)
                       (random_normal1 random_normal_draw m))
    with (n := Z.to_nat n) (g := g) as (l & g' & Hl & Hlen & HF).
  - intros g0. destruct (random_normal1_ok m g0) as (v & g1 & H & Hv). eauto.
  - exists {| ncols := Z.to_nat m; rows := l |}, g'.
    unfold random_normal2. rewrite (mbind_ok _ _ _ _ _ Hl).
    by repeat split.
Qed.

(** *** The default parameters of [Multinomial] *)

Lemma rmap_map_ok {A B C : Type} (f : B -> result C) (h : A -> B) (k : A -> C)
    (l : list A) :
  (forall a, f (h a) = Ok (k a)) -> rmap f (map h l) = Ok (map k l).
Proof.
  intros Hf. induction l as [|a l IH]; simpl; [done|].
  by rewrite Hf, IH.
Qed.

Lemma stick_breaking_rows (num_factors K : Z) (pi_unconst : ndarray) :
  nrows pi_unconst = Z.to_nat num_factors ->
  stick_breaking num_factors K pi_unconst
  = Ok {| ncols := (1 + ncols pi_unconst)%nat;
          rows := map (stick_row K) (rows pi_unconst) |}.
Proof.
  intros Hn. unfold stick_breaking, concat1, tf_ones, map2d, mul2, nrows in *.
  cbn [ncols rows].
  rewrite zip_with_replicate_l by (rewrite !length_map; lia).
  rewrite zip_with_replicate_r by (rewrite length_map; lia).
  rewrite <- !list_fmap_compose.
  erewrite (rmap_map_ok cumprod _
              (fun u => cumprod_loop
                          (1%R :: map (fun v => (1 - v)%R)
                                      (zip_with (fun e u => tf_sigmoid (e + u))
                                                (stick_offsets K) u)) [] 1%R));
    [|done].
  cbn [rbind ncols rows].
  f_equal. f_equal.
  rewrite zip_with_fmap_l, zip_with_fmap_r, zip_with_diag.
  apply list_fmap_ext. intros _ u _. reflexivity.
Qed.

Lemma py_index_pair_first {A : Type} (a b : A) : py_index [a; b] 0 = Ok a.
Proof. reflexivity. Qed.

Lemma py_index_pair_last {A : Type} (a b : A) : py_index [a; b] (-1) = Ok b.
Proof. reflexivity. Qed.

Lemma py_index_last_first {A : Type} (l : list A) (x : A) :
  py_index l (-1) = Ok x -> exists y, py_index l 0 = Ok y.
Proof.
  destruct l as [|y l]; [discriminate|].
  intros _. exists y. unfold py_index.
  cbn [length]. rewrite Nat2Z.inj_succ.
  replace (0 <? 0) with false by reflexivity.
  replace ((0 <=? 0) && (0 <? Z.succ (Z.of_nat (length l)))) with true; [done|].
  symmetry. apply andb_true_iff. split; [reflexivity | apply Z.ltb_lt; lia].
Qed.

(** With no [pi] given and [K] other than one, the constructor draws
    [pi_unconst] and stores its image under the stick-breaking map. *)
Lemma Multinomial_init_default (shape : list Z) (num_factors K : Z) (g : rng) :
  py_index shape 0 = Ok num_factors ->
  py_index shape (-1) = Ok K ->
  K <> 1 ->
  exists pi_unconst g',
    random_normal2 random_normal_draw num_factors (K - 1) g = (Ok pi_unconst, g')
    /\ nrows pi_unconst = Z.to_nat num_factors
    /\ ncols pi_unconst = Z.to_nat (K - 1)
    /\ shape_ok pi_unconst
    /\ Multinomial_init random_normal_draw shape None g
       = (Ok {| num_factors := num_factors; num_vars := K * num_factors;
                num_params := K * num_factors; sample_tensor := false;
                attrs := Multinomial K
                           {| ncols := (1 + ncols pi_unconst)%nat;
                              rows := map (stick_row K) (rows pi_unconst) |} |}, g').
Proof.
  intros Hnf HK Hne.
  destruct (random_normal2_ok num_factors (K - 1) g) as (a & g' & Ha & Hr & Hc & Hs).
  exists a, g'. repeat split; auto.
  unfold Multinomial_init.
  rewrite (mbind_ok _ _ g g num_factors) by (unfold lift; by rewrite Hnf).
  rewrite (mbind_ok _ _ g g K) by (unfold lift; by rewrite HK).
  apply Z.eqb_neq in Hne. rewrite Hne.
  erewrite mbind_ok; [reflexivity|].
  rewrite (mbind_ok _ _ _ _ _ Ha).
  unfold lift. by rewrite stick_breaking_rows.
Qed.

Lemma stick_rows_simplex (num_factors K : Z) (pi_unconst : ndarray) :
  2 <= K ->
  nrows pi_unconst = Z.to_nat num_factors ->
  ncols pi_unconst = Z.to_nat (K - 1) ->
  shape_ok pi_unconst ->
  simplex_rows num_factors K
    {| ncols := (1 + ncols pi_unconst)%nat;
       rows := map (stick_row K) (rows pi_unconst) |}.
Proof.
  intros HK Hr Hc Hs. unfold simplex_rows, nrows in *. cbn [ncols rows].
  split; [by rewrite length_map|].
  split; [lia|].
  apply Forall_map. unfold shape_ok in Hs.
  eapply Forall_impl; [exact Hs|].
  intros u Hu. cbn beta in *. split.
  - rewrite stick_row_length by lia. lia.
  - apply stick_row_simplex.
Qed.

(** C4. For every [K >= 2], the stick-breaking construction carries every
    real [num_factors x (K-1)] array to an array whose rows have [K]
    non-negative entries that sum to exactly one, and this array is the
    [pi] of a [Multinomial] built without an explicit [pi]. Entries are
    real numbers. *)
Theorem Multinomial_default_pi_simplex (num_factors K : Z) (g : rng) :
  1 <= num_factors ->
  2 <= K ->
  (forall pi_unconst : ndarray,
      nrows pi_unconst = Z.to_nat num_factors ->
      ncols pi_unconst = Z.to_nat (K - 1) ->
      shape_ok pi_unconst ->
      exists pi, stick_breaking num_factors K pi_unconst = Ok pi
                 /\ simplex_rows num_factors K pi)
  /\ (exists d g' pi,
        Multinomial_init random_normal_draw [num_factors; K] None g = (Ok d, g')
        /\ attrs d = Multinomial K pi
        /\ simplex_rows num_factors K pi).
Proof.
  intros Hnf HK. split.
  - intros a Hr Hc Hs. eexists. split.
    + by apply stick_breaking_rows.
    + by apply stick_rows_simplex.
  - destruct (Multinomial_init_default [num_factors; K] num_factors K g)
      as (a & g' & _ & Hr & Hc & Hs & Hinit); [reflexivity | reflexivity | lia |].
    eexists _, g', _. split; [exact Hinit|].
    split; [reflexivity|].
    by apply stick_rows_simplex.
Qed.

(** C5. A [Multinomial] whose shape ends in [K = 1] is refused when it is
    built, whatever the number of factors and whether [pi] is given or
    not, with a [ValueError] whose message says to use Bernoulli; with
    [K >= 2] the constructor returns an object. *)
Theorem Multinomial_init_K (shape : list Z) (pi : option ndarray) (g : rng)
    (num_factors K : Z) :
  py_index shape 0 = Ok num_factors ->
  py_index shape (-1) = Ok K ->
  (K = 1 ->
   Multinomial_init random_normal_draw shape pi g = (Raise (ValueError K1_message), g))
  /\ (2 <= K -> (pi = None -> 1 <= num_factors) ->
      exists d g', Multinomial_init random_normal_draw shape pi g = (Ok d, g')).
Proof.
  intros Hnf HK. split.
  - intros ->. unfold Multinomial_init.
    rewrite (mbind_ok _ _ g g num_factors) by (unfold lift; by rewrite Hnf).
    rewrite (mbind_ok _ _ g g 1) by (unfold lift; by rewrite HK).
    reflexivity.
  - intros HK2 Hpi. destruct pi as [pi|].
    + unfold Multinomial_init.
      rewrite (mbind_ok _ _ g g num_factors) by (unfold lift; by rewrite Hnf).
      rewrite (mbind_ok _ _ g g K) by (unfold lift; by rewrite HK).
      replace (K =? 1) with false by (symmetry; apply Z.eqb_neq; lia).
      eexists _, g. reflexivity.
    + destruct (Multinomial_init_default shape num_factors K g)
        as (a & g' & _ & _ & _ & _ & Hinit); [done | done | lia |].
      eauto.
Qed.

(** *** The aggregates of a Variational *)

Lemma fold_left_add (l : list Z) (a : Z) :
  fold_left Z.add l a = a + fold_right Z.add 0 l.
Proof.
  revert a. induction l as [|x l IH]; intros a; simpl; [lia|].
  rewrite IH. lia.
Qed.

Lemma py_sum_map (f : Distribution -> Z) (ls : list Distribution) :
  py_sum (map f ls) = sum_over f ls.
Proof.
  unfold py_sum. rewrite fold_left_add. unfold sum_over.
  induction ls as [|l ls IH]; simpl in *; lia.
Qed.

Lemma sum_over_app (f : Distribution -> Z) (ls : list Distribution) (layer : Distribution) :
  sum_over f (ls ++ [layer]) = sum_over f ls + f layer.
Proof. induction ls as [|l ls IH]; simpl in *; lia. Qed.

Lemma py_all_map (f : Distribution -> bool) (ls : list Distribution) :
  py_all (map f ls) = true <-> Forall (fun l => f l = true) ls.
Proof.
  unfold py_all. induction ls as [|l ls IH]; simpl.
  - split; [constructor | done].
  - rewrite andb_true_iff, IH. split.
    + intros [H1 H2]. by constructor.
    + intros H. inversion H; subst. done.
Qed.

Lemma Forall_snoc_true (f : Distribution -> bool) (ls : list Distribution)
    (layer : Distribution) (b : bool) :
  (b = true <-> Forall (fun l => f l = true) ls) ->
  (b && f layer = true <-> Forall (fun l => f l = true) (ls ++ [layer])).
Proof.
  intros Hb. rewrite andb_true_iff, Forall_app, Hb. split.
  - intros [H1 H2]. split; [done|]. by constructor.
  - intros [H1 H2]. split; [done|]. by inversion H2.
Qed.

(** A newly built Variational satisfies its invariant, whichever list it
    was given. *)
Lemma Variational_init_invariant (layers : loc) (h : heap) :
  invariant h (Variational_init layers h).
Proof.
  unfold invariant, Variational_init.
  destruct (h !!! layers) as [|l ls] eqn:Hls; cbn [Variational.layers]; rewrite Hls.
  - unfold aggregates. cbn.
    repeat split; intros; try done; constructor.
  - unfold aggregates.
    cbn [Variational.num_factors Variational.num_vars Variational.num_params
         Variational.is_reparam Variational.is_normal Variational.is_entropy].
    rewrite !py_sum_map. repeat split; try apply py_all_map.
Qed.

(** [add] keeps the invariant of the object it is called on. *)
Lemma Variational_add_invariant (v : Variational.t) (layer : Distribution) (h : heap) :
  invariant h v ->
  invariant (Variational_add v layer h).2 (Variational_add v layer h).1.
Proof.
  unfold invariant, Variational_add. cbn [fst snd Variational.layers].
  rewrite lookup_total_insert_eq.
  intros (Hf & Hv & Hp & Hr & Hn & He). unfold aggregates.
  cbn [Variational.num_factors Variational.num_vars Variational.num_params
       Variational.is_reparam Variational.is_normal Variational.is_entropy].
  rewrite !sum_over_app, Hf, Hv, Hp.
  repeat split; by apply Forall_snoc_true.
Qed.

(** [add] keeps the invariant of every object whose list is another one. *)
Lemma Variational_add_invariant_other (v w : Variational.t) (layer : Distribution)
    (h : heap) :
  Variational.layers w <> Variational.layers v ->
  invariant h w ->
  invariant (Variational_add v layer h).2 w.
Proof.
  intros Hne. unfold invariant, Variational_add. cbn [snd].
  by rewrite lookup_total_insert_ne.
Qed.

Lemma Variational_init_default_first :
  Variational_init default_layers initial_heap
  = {| Variational.layers := default_layers;
       Variational.num_factors := 0;
       Variational.num_vars := 0;
       Variational.num_params := 0;
       Variational.is_reparam := true;
       Variational.is_normal := true;
       Variational.is_entropy := true;
       Variational.sample_tensor := [] |}.
Proof.
  unfold Variational_init, initial_heap.
  by rewrite lookup_total_singleton_eq.
Qed.

(** C1. Two objects built with the default argument hold the same list:
    after [v1 = Variational(); v2 = Variational(); v1.add(layer)] the
    object [v2] has one layer and the aggregates of none, and a later
    [v2.add(layer)] gives it the aggregates of one layer for a list of
    two, where building from that list gives those of two. *)
Theorem Variational_default_list_shared :
  let v1 := Variational_init default_layers initial_heap in
  let v2 := Variational_init default_layers initial_heap in
  let h1 := (Variational_add v1 unit_normal initial_heap).2 in
  let v2' := (Variational_add v2 unit_normal h1).1 in
  let h2 := (Variational_add v2 unit_normal h1).2 in
  Normal_init zero_draw 1 (Some [0%R]) (Some [1%R]) tt = (Ok unit_normal, tt)
  /\ invariant initial_heap v2
  /\ h1 !!! Variational.layers v2 = [unit_normal]
  /\ Variational.num_factors v2 = 0
  /\ ~ invariant h1 v2
  /\ h2 !!! Variational.layers v2' = [unit_normal; unit_normal]
  /\ Variational.num_factors v2' = 1
  /\ Variational.num_factors (Variational_init (Variational.layers v2') h2) = 2
  /\ ~ invariant h2 v2'.
Proof.
  cbv zeta. split; [reflexivity|].
  rewrite Variational_init_default_first.
  unfold Variational_add. cbn [fst snd Variational.layers Variational.num_factors].
  unfold initial_heap.
  rewrite !lookup_total_insert_eq, lookup_total_singleton_eq.
  split.
  { rewrite <- Variational_init_default_first. apply Variational_init_invariant. }
  split; [reflexivity|].
  split; [reflexivity|].
  split.
  { unfold invariant, aggregates. cbn [Variational.layers Variational.num_factors].
    rewrite lookup_total_insert_eq. cbn. intros [H _]. discriminate H. }
  split; [reflexivity|].
  split; [reflexivity|].
  split.
  { unfold Variational_init. rewrite lookup_total_insert_eq. reflexivity. }
  unfold invariant, aggregates. cbn [Variational.layers Variational.num_factors].
  rewrite lookup_total_insert_eq. cbn. intros [H _]. discriminate H.
Qed.

(** *** What the constructors return *)

Ltac draw1 n g v g' Hlen :=
  let H := fresh "Hdraw" in
  destruct (random_normal1_ok n g) as (v & g' & H & Hlen);
  rewrite H.

Lemma Bernoulli_init_spec (n : Z) (p : option vector) (g g' : rng) (d : Distribution) :
  Bernoulli_init random_normal_draw n p g = (Ok d, g') ->
  exists p', d = {| num_factors := n; num_vars := n; num_params := n;
                    sample_tensor := false; attrs := Bernoulli p' |}
             /\ match p with Some p0 => p' = p0 | None => length p' = Z.to_nat n end.
Proof.
  unfold Bernoulli_init, mbind, mret. destruct p as [p0|].
  - intros [= <- <-]. eauto.
  - draw1 n g v g1 Hlen. intros [= <- <-].
    eexists. split; [reflexivity|]. by rewrite length_map.
Qed.

Lemma Beta_init_spec (n : Z) (a b : option vector) (g g' : rng) (d : Distribution) :
  Beta_init random_normal_draw n a b g = (Ok d, g') ->
  exists a' b', d = {| num_factors := n; num_vars := n; num_params := 2 * n;
                       sample_tensor := false; attrs := Beta a' b' |}
                /\ match a with Some a0 => a' = a0 | None => length a' = Z.to_nat n end
                /\ match b with Some b0 => b' = b0 | None => length b' = Z.to_nat n end.
Proof.
  unfold Beta_init, mbind, mret.
  destruct a as [a0|]; destruct b as [b0|].
  - intros [= <- <-]. eauto.
  - draw1 n g v g1 Hlen. intros [= <- <-].
    eexists _, _. split; [reflexivity|]. by rewrite length_map.
  - draw1 n g v g1 Hlen. intros [= <- <-].
    eexists _, _. split; [reflexivity|]. by rewrite length_map.
  - draw1 n g v g1 Hlen. draw1 n g1 w g2 Hlen2. intros [= <- <-].
    eexists _, _. split; [reflexivity|]. by rewrite !length_map.
Qed.

Lemma InvGamma_init_spec (n : Z) (a b : option vector) (g g' : rng) (d : Distribution) :
  InvGamma_init random_normal_draw n a b g = (Ok d, g') ->
  exists a' b', d = {| num_factors := n; num_vars := n; num_params := 2 * n;
                       sample_tensor := false; attrs := InvGamma a' b' |}
                /\ match a with Some a0 => a' = a0 | None => length a' = Z.to_nat n end
                /\ match b with Some b0 => b' = b0 | None => length b' = Z.to_nat n end.
Proof.
  unfold InvGamma_init, mbind, mret.
  destruct a as [a0|]; destruct b as [b0|].
  - intros [= <- <-]. eauto.
  - draw1 n g v g1 Hlen. intros [= <- <-].
    eexists _, _. split; [reflexivity|]. by rewrite length_map.
  - draw1 n g v g1 Hlen. intros [= <- <-].
    eexists _, _. split; [reflexivity|]. by rewrite length_map.
  - draw1 n g v g1 Hlen. draw1 n g1 w g2 Hlen2. intros [= <- <-].
    eexists _, _. split; [reflexivity|]. by rewrite !length_map.
Qed.

Lemma Normal_init_spec (n : Z) (loc scale : option vector) (g g' : rng)
    (d : Distribution) :
  Normal_init random_normal_draw n loc scale g = (Ok d, g') ->
  exists l s, d = {| num_factors := n; num_vars := n; num_params := 2 * n;
                     sample_tensor := true; attrs := Normal l s |}
              /\ match loc with Some l0 => l = l0 | None => length l = Z.to_nat n end
              /\ match scale with Some s0 => s = s0 | None => length s = Z.to_nat n end.
Proof.
  unfold Normal_init, mbind, mret.
  destruct loc as [l0|]; destruct scale as [s0|].
  - intros [= <- <-]. eauto.
  - draw1 n g v g1 Hlen. intros [= <- <-].
    eexists _, _. split; [reflexivity|]. by rewrite length_map.
  - draw1 n g v g1 Hlen. intros [= <- <-]. eauto.
  - draw1 n g v g1 Hlen. draw1 n g1 w g2 Hlen2. intros [= <- <-].
    eexists _, _. split; [reflexivity|]. by rewrite length_map.
Qed.

Lemma PointMass_init_spec (n : Z) (params : option vector) (g g' : rng)
    (d : Distribution) :
  PointMass_init random_normal_draw n params g = (Ok d, g') ->
  exists ps, d = {| num_factors := 1; num_vars := n; num_params := n;
                    sample_tensor := true; attrs := PointMass ps |}
             /\ match params with
                | Some p0 => ps = p0
                | None => length ps = Z.to_nat n
                end.
Proof.
  unfold PointMass_init, mbind, mret. destruct params as [p0|].
  - intros [= <- <-]. eauto.
  - draw1 n g v g1 Hlen. intros [= <- <-]. eauto.
Qed.

Lemma Dirichlet_init_spec (shape : list Z) (alpha : option ndarray) (g g' : rng)
    (d : Distribution) :
  Dirichlet_init random_normal_draw shape alpha g = (Ok d, g') ->
  exists n K a, py_index shape 0 = Ok n /\ py_index shape (-1) = Ok K
    /\ d = {| num_factors := n; num_vars := K * n; num_params := K * n;
              sample_tensor := false; attrs := Dirichlet K a |}
    /\ match alpha with
       | Some a0 => a = a0
       | None => nrows a = Z.to_nat n /\ ncols a = Z.to_nat K
       end.
Proof.
  unfold Dirichlet_init, mbind, mret, lift.
  destruct (py_index shape 0) as [n|e]; [|discriminate].
  destruct (py_index shape (-1)) as [K|e]; [|discriminate].
  destruct alpha as [a0|].
  - intros [= <- <-]. eexists _, _, _. eauto.
  - destruct (random_normal2_ok n K g) as (a & g1 & Ha & Hr & Hc & _).
    rewrite Ha. intros [= <- <-].
    eexists _, _, _. do 3 (split; [reflexivity|]).
    unfold nrows, map2d in *. cbn [rows ncols]. by rewrite length_map.
Qed.

Lemma Multinomial_init_spec (shape : list Z) (pi : option ndarray) (g g' : rng)
    (d : Distribution) :
  Multinomial_init random_normal_draw shape pi g = (Ok d, g') ->
  exists n K a, py_index shape 0 = Ok n /\ py_index shape (-1) = Ok K /\ K <> 1
    /\ d = {| num_factors := n; num_vars := K * n; num_params := K * n;
              sample_tensor := false; attrs := Multinomial K a |}
    /\ match pi with
       | Some a0 => a = a0
       | None => nrows a = Z.to_nat n
       end.
Proof.
  intros Hinit.
  destruct (py_index shape 0) as [n|e] eqn:Hn;
    [|unfold Multinomial_init, mbind, lift in Hinit; rewrite Hn in Hinit; discriminate].
  destruct (py_index shape (-1)) as [K|e] eqn:HK;
    [|unfold Multinomial_init, mbind, lift in Hinit; rewrite Hn, HK in Hinit;
      discriminate].
  destruct (Z.eq_dec K 1) as [->|Hne].
  { unfold Multinomial_init, mbind, lift in Hinit. rewrite Hn, HK in Hinit.
    discriminate. }
  exists n, K. destruct pi as [a0|].
  - unfold Multinomial_init, mbind, mret, lift in Hinit. rewrite Hn, HK in Hinit.
    apply Z.eqb_neq in Hne as Hne'. rewrite Hne' in Hinit.
    injection Hinit as <- <-. eauto 10.
  - destruct (Multinomial_init_default shape n K g Hn HK Hne)
      as (a & g1 & _ & Hr & _ & _ & Hok).
    rewrite Hok in Hinit. injection Hinit as <- <-.
    eexists. repeat split; try done.
    unfold nrows in *. cbn [rows]. by rewrite length_map.
Qed.

(** The constructors that take a number of factors always return. *)
Lemma Bernoulli_init_total (n : Z) (p : option vector) (g : rng) :
  exists d g', Bernoulli_init random_normal_draw n p g = (Ok d, g').
Proof.
  unfold Bernoulli_init, mbind, mret. destruct p as [p0|]; [eauto|].
  draw1 n g v g1 Hlen. eauto.
Qed.

Lemma Normal_init_total (n : Z) (loc scale : option vector) (g : rng) :
  exists d g', Normal_init random_normal_draw n loc scale g = (Ok d, g').
Proof.
  unfold Normal_init, mbind, mret.
  destruct loc as [l0|]; destruct scale as [s0|]; [eauto| | |].
  - draw1 n g v g1 Hlen. eauto.
  - draw1 n g v g1 Hlen. eauto.
  - draw1 n g v g1 Hlen. draw1 n g1 w g2 Hlen2. eauto.
Qed.

Lemma PointMass_init_total (n : Z) (params : option vector) (g : rng) :
  exists d g', PointMass_init random_normal_draw n params g = (Ok d, g').
Proof.
  unfold PointMass_init, mbind, mret. destruct params as [p0|]; [eauto|].
  draw1 n g v g1 Hlen. eauto.
Qed.

(** *** Routing a factor index to its layer *)

Lemma Variational_of_list_lookup (ls : list Distribution) (h : heap) :
  (Variational_of_list ls h).2 !!! Variational.layers (Variational_of_list ls h).1 = ls
  /\ (Variational_of_list ls h).1
     = Variational_init (Variational.layers (Variational_of_list ls h).1)
                        (Variational_of_list ls h).2.
Proof.
  unfold Variational_of_list, new_list. cbn [fst snd].
  assert (Hl : forall l h0, Variational.layers (Variational_init l h0) = l).
  { intros l h0. unfold Variational_init. by destruct (h0 !!! l). }
  rewrite Hl. split; [apply lookup_total_insert_eq | reflexivity].
Qed.

Lemma log_prob_i_loop_second {A : Type}
    (call : Distribution -> Z -> ndarray -> result A)
    (L1 L2 : Distribution) (xs : ndarray) :
  num_factors L1 = 3 -> num_vars L1 = 3 -> num_factors L2 = 2 -> num_vars L2 = 2 ->
  log_prob_i_loop call [L1; L2] 3 xs 0 0 = call L2 0 (slice_cols xs 3 5).
Proof.
  intros Hf1 Hv1 Hf2 Hv2. cbn [log_prob_i_loop].
  rewrite Hf1, Hv1, Hf2, Hv2. reflexivity.
Qed.

Lemma normal3_bernoulli2_aggregates (L1 L2 : Distribution) (v : Variational.t)
    (h : heap) :
  num_factors L1 = 3 -> num_vars L1 = 3 -> defines_reparam L2 = false ->
  num_factors L2 = 2 -> num_vars L2 = 2 ->
  h !!! Variational.layers v = [L1; L2] ->
  invariant h v ->
  normal3_bernoulli2_facts L2 v h.
Proof.
  intros Hf1 Hv1 Hr2 Hf2 Hv2 Hls Hinv.
  unfold invariant in Hinv. rewrite Hls in Hinv.
  destruct Hinv as (Hf & Hv & _ & Hr & _).
  cbn in Hf, Hv. rewrite Hf1, Hf2 in Hf. rewrite Hv1, Hv2 in Hv.
  repeat split; [done | done | |].
  - destruct (Variational.is_reparam v); [|done].
    destruct Hr as [Hr _]. specialize (Hr eq_refl).
    inversion Hr as [|? ? _ Hr2']; subst. inversion Hr2' as [|? ? Hb _]; subst.
    congruence.
  - intros A call xs. unfold Variational_log_prob_i_with. rewrite Hls.
    by apply log_prob_i_loop_second.
Qed.

(** C2, amended. For a Variational of a [Normal] with three factors
    followed by a [Bernoulli] with two factors, built from the list of the
    two or by two calls of [add] on an empty one: [num_factors] is 5,
    [num_vars] is 5, [is_reparam] is false, and [log_prob_i(3, xs)] calls
    the second layer with local index 0 and the columns [xs[:, 3:5]], the
    whole block of that layer. *)
Theorem Variational_normal3_bernoulli2 (mu sigma p : option vector) (g : rng)
    (l : loc) (h : heap) :
  exists L1 g1 L2 g2,
    Normal_init random_normal_draw 3 mu sigma g = (Ok L1, g1)
    /\ Bernoulli_init random_normal_draw 2 p g1 = (Ok L2, g2)
    /\ normal3_bernoulli2_facts L2 (Variational_of_list [L1; L2] h).1
                                   (Variational_of_list [L1; L2] h).2
    /\ (h !!! l = [] ->
        let s1 := Variational_add (Variational_init l h) L1 h in
        let s2 := Variational_add s1.1 L2 s1.2 in
        normal3_bernoulli2_facts L2 s2.1 s2.2).
Proof.
  destruct (Normal_init_total 3 mu sigma g) as (L1 & g1 & H1).
  destruct (Bernoulli_init_total 2 p g1) as (L2 & g2 & H2).
  exists L1, g1, L2, g2. split; [exact H1|]. split; [exact H2|].
  apply Normal_init_spec in H1 as (lo & sc & -> & _).
  apply Bernoulli_init_spec in H2 as (p' & -> & _).
  split.
  - destruct (Variational_of_list_lookup
                [ {| num_factors := 3; num_vars := 3; num_params := 2 * 3;
                     sample_tensor := true; attrs := Normal lo sc |};
                  {| num_factors := 2; num_vars := 2; num_params := 2;
                     sample_tensor := false; attrs := Bernoulli p' |} ] h)
      as [Hls Hv].
    apply normal3_bernoulli2_aggregates
      with (L1 := mk_Distribution 3 3 (2 * 3) true (Normal lo sc)); try done.
    rewrite Hv. apply Variational_init_invariant.
  - intros Hempty. cbv zeta.
    apply normal3_bernoulli2_aggregates
      with (L1 := mk_Distribution 3 3 (2 * 3) true (Normal lo sc)); try done.
    + unfold Variational_add. cbn [fst snd Variational.layers].
      rewrite !lookup_total_insert_eq.
      assert (Hl : Variational.layers (Variational_init l h) = l).
      { unfold Variational_init. by destruct (h !!! l). }
      rewrite Hl, Hempty. reflexivity.
    + apply Variational_add_invariant, Variational_add_invariant,
        Variational_init_invariant.
Qed.

(** C2 as stated fails: the columns handed to the second layer are
    [xs[:, 3:5]], which is not [xs[:, 3:4]] when the batch has five
    columns. *)
Lemma Variational_log_prob_i_slice_not_3_4 :
  Normal_init zero_draw 3 (Some [0%R; 0%R; 0%R]) (Some [1%R; 1%R; 1%R]) tt
    = (Ok normal3, tt)
  /\ Bernoulli_init zero_draw 2 (Some [(1 / 2)%R; (1 / 2)%R]) tt = (Ok bernoulli2, tt)
  /\ Variational_log_prob_i_with record_call
       (Variational_of_list [normal3; bernoulli2] initial_heap).1 3 one_row_batch
       (Variational_of_list [normal3; bernoulli2] initial_heap).2
     <> record_call bernoulli2 0 (slice_cols one_row_batch 3 4).
Proof.
  split; [reflexivity|]. split; [reflexivity|].
  destruct (Variational_of_list_lookup [normal3; bernoulli2] initial_heap) as [Hls _].
  unfold Variational_log_prob_i_with. rewrite Hls.
  rewrite log_prob_i_loop_second by reflexivity.
  unfold record_call. intros H.
  apply (f_equal (fun r => match r with
                           | Ok (_, _, a) => ncols a
                           | Raise _ => 0%nat
                           end)) in H.
  vm_compute in H. discriminate H.
Qed.

(** *** Entropy of the composite *)

Lemma entropy_loop_sum (ls : list Distribution) (es : list R) (out : R) :
  Forall2 (fun l e => entropy stats l = Ok e) ls es ->
  entropy_loop stats ls out = Ok (out + reduce_sum es)%R.
Proof.
  intros HF. revert out.
  induction HF as [|l e ls es Hl _ IH]; intros out; simpl.
  - f_equal. lra.
  - rewrite Hl. cbn [rbind]. rewrite IH. f_equal. lra.
Qed.

Lemma entropy_loop_raise (pre post : list Distribution) (l : Distribution) (e : exn)
    (out : R) :
  Forall (fun l => exists x, entropy stats l = Ok x) pre ->
  entropy stats l = Raise e ->
  entropy_loop stats (pre ++ l :: post) out = Raise e.
Proof.
  intros Hpre Hl. revert out.
  induction Hpre as [|l0 pre [x Hx] _ IH]; intros out; simpl.
  - by rewrite Hl.
  - rewrite Hx. cbn [rbind]. apply IH.
Qed.

(** C7. The entropy of a Variational is the sum of the entropies of its
    layers, zero when there is no layer; when a layer has no entropy, its
    exception is the outcome. *)
Theorem Variational_entropy_sum (v : Variational.t) (h : heap) :
  (forall es : list R,
      Forall2 (fun l e => entropy stats l = Ok e) (h !!! Variational.layers v) es ->
      Variational_entropy stats v h = Ok (reduce_sum es))
  /\ (h !!! Variational.layers v = [] -> Variational_entropy stats v h = Ok 0%R)
  /\ (forall pre post l e,
        h !!! Variational.layers v = pre ++ l :: post ->
        Forall (fun l => exists x, entropy stats l = Ok x) pre ->
        entropy stats l = Raise e ->
        Variational_entropy stats v h = Raise e).
Proof.
  unfold Variational_entropy. repeat split.
  - intros es HF. rewrite (entropy_loop_sum _ es) by done. f_equal. lra.
  - intros ->. reflexivity.
  - intros pre post l e -> Hpre Hl. by apply entropy_loop_raise.
Qed.

(** *** Operations a class does not define *)

(** C9. The base methods [sample_noise] and [reparam] raise
    [NotImplementedError], and so does every distribution whose class
    does not define them; [PointMass] defines no entropy and its
    [entropy()] raises the same error. *)
Theorem unsupported_operations (d : Distribution) :
  (forall size g,
      @Distribution_sample_noise rng d size g = (Raise NotImplementedError, g))
  /\ (forall eps, Distribution_reparam d eps = Raise NotImplementedError)
  /\ (defines_reparam d = false ->
      forall size g eps,
        sample_noise random_normal_draw d size g = (Raise NotImplementedError, g)
        /\ reparam d eps = Raise NotImplementedError)
  /\ (forall params, attrs d = PointMass params ->
      defines_entropy d = false /\ entropy stats d = Raise NotImplementedError).
Proof.
  repeat split.
  - unfold defines_reparam, sample_noise in *. by destruct (attrs d).
  - unfold defines_reparam, reparam in *. by destruct (attrs d).
  - unfold defines_entropy. by rewrite H.
  - unfold entropy. by rewrite H.
Qed.

(** *** PointMass *)

Lemma tf_equal_cast_same (a : R) : tf_equal_cast a a = 1%R.
Proof. unfold tf_equal_cast. by destruct (Req_dec_T a a). Qed.

Lemma tf_equal_cast_other (a b : R) : a <> b -> tf_equal_cast a b = 0%R.
Proof. intros Hne. unfold tf_equal_cast. by destruct (Req_dec_T a b). Qed.

(** C8. For every size of at least one, the sample of a PointMass has
    [size] rows and [num_vars] columns, and every row is the parameter
    vector; the generator is not used. The parameter vector has
    [num_vars] entries: it was drawn by the constructor, or it was given
    with that length. *)
Theorem PointMass_sample_rows (n : Z) (given : option vector) (g0 g : rng) (size : Z) :
  match given with Some p0 => length p0 = Z.to_nat n | None => True end ->
  1 <= size ->
  exists d g1 params x,
    PointMass_init random_normal_draw n given g0 = (Ok d, g1)
    /\ attrs d = PointMass params
    /\ sample random_normal_draw stats d size g = (Ok x, g)
    /\ nrows x = Z.to_nat size
    /\ (1 <= nrows x)%nat
    /\ ncols x = Z.to_nat (num_vars d)
    /\ shape_ok x
    /\ Forall (fun row => row = params) (rows x).
Proof.
  intros Hgiven Hsize.
  destruct (PointMass_init_total n given g0) as (d & g1 & Hinit).
  exists d, g1. pose proof Hinit as Hd.
  apply PointMass_init_spec in Hd as (ps & -> & Hps).
  assert (Hlen : length ps = Z.to_nat n) by (destruct given; congruence).
  exists ps. eexists. split; [exact Hinit|]. split; [reflexivity|].
  unfold sample, PointMass_sample, mret. cbn [attrs num_vars].
  replace (size <=? 0) with false by (symmetry; apply Z.leb_gt; lia).
  split; [reflexivity|].
  unfold nrows, shape_ok. cbn [rows ncols]. rewrite length_replicate.
  repeat split; try lia.
  - apply Forall_forall. intros r Hr. apply elem_of_replicate in Hr as [-> _]. done.
  - apply Forall_forall. intros r Hr. by apply elem_of_replicate in Hr as [-> _].
Qed.

(** C10. A PointMass has one factor whatever [num_vars] it is built
    with, and [num_vars] and [num_params] are the argument. So
    [log_prob_i] raises for every index from one on, and at index zero
    it returns, row by row, whether the first column of the batch equals
    the first parameter; no other column and no other parameter is read. *)
Theorem PointMass_single_factor (n : Z) (given : option vector) (g0 : rng) :
  exists d g1 params,
    PointMass_init random_normal_draw n given g0 = (Ok d, g1)
    /\ attrs d = PointMass params
    /\ match given with Some p0 => params = p0 | None => length params = Z.to_nat n end
    /\ num_factors d = 1 /\ num_vars d = n /\ num_params d = n
    /\ (forall i xs, 1 <= i -> log_prob_i stats d i xs = Raise IndexError)
    /\ (forall xs p0 rest,
          params = p0 :: rest ->
          (1 <= ncols xs)%nat ->
          log_prob_i stats d 0 xs
          = Ok (map (fun row : vector => tf_equal_cast (nth 0 row 0%R) p0) (rows xs))).
Proof.
  destruct (PointMass_init_total n given g0) as (d & g1 & Hinit).
  exists d, g1. pose proof Hinit as Hd.
  apply PointMass_init_spec in Hd as (ps & -> & Hps).
  exists ps. split; [exact Hinit|]. split; [reflexivity|]. split; [exact Hps|].
  cbn [num_factors num_vars num_params attrs].
  split; [reflexivity|]. split; [reflexivity|]. split; [reflexivity|]. split.
  - intros i xs Hi. unfold log_prob_i, PointMass_log_prob_i. cbn [attrs num_factors].
    replace (i >=? 1) with true; [done|]. symmetry. apply Z.geb_le. lia.
  - intros xs p0 rest -> Hc.
    unfold log_prob_i, PointMass_log_prob_i. cbn [attrs num_factors].
    replace (0 >=? 1) with false by reflexivity.
    unfold get_col. replace (0 <? 0) with false by reflexivity.
    replace ((0 <=? 0) && (0 <? Z.of_nat (ncols xs))) with true.
    2:{ symmetry. apply andb_true_iff. split; [done|]. apply Z.ltb_lt. lia. }
    cbn [rbind]. unfold py_index. cbn [length].
    replace (0 <? 0) with false by reflexivity.
    replace ((0 <=? 0) && (0 <? Z.of_nat (S (length rest)))) with true.
    2:{ symmetry. apply andb_true_iff. split; [done|]. apply Z.ltb_lt. lia. }
    change (Z.to_nat 0) with 0%nat. cbn [lookup list_lookup rbind].
    by rewrite map_map.
Qed.

(** *** The range of factor indices *)

Lemma py_index_in_range {A : Type} (l : list A) (i : Z) :
  0 <= i < Z.of_nat (length l) -> exists x, py_index l i = Ok x.
Proof.
  intros Hi. unfold py_index.
  replace (i <? 0) with false by (symmetry; apply Z.ltb_ge; lia).
  replace ((0 <=? i) && (i <? Z.of_nat (length l))) with true.
  2:{ symmetry. apply andb_true_iff. split; [apply Z.leb_le | apply Z.ltb_lt]; lia. }
  destruct (l !! Z.to_nat i) as [x|] eqn:Hx; [eauto|].
  apply lookup_ge_None in Hx. lia.
Qed.

Lemma get_col_in_range (xs : ndarray) (i : Z) :
  0 <= i < Z.of_nat (ncols xs) ->
  get_col xs i = Ok (map (fun r : vector => nth (Z.to_nat i) r 0%R) (rows xs)).
Proof.
  intros Hi. unfold get_col.
  replace (i <? 0) with false by (symmetry; apply Z.ltb_ge; lia).
  replace ((0 <=? i) && (i <? Z.of_nat (ncols xs))) with true; [done|].
  symmetry. apply andb_true_iff. split; [apply Z.leb_le | apply Z.ltb_lt]; lia.
Qed.

Lemma slice_cols_nrows (xs : ndarray) (start final : Z) :
  nrows (slice_cols xs start final) = nrows xs.
Proof. unfold nrows, slice_cols. cbn [rows]. by rewrite length_map. Qed.

Lemma slice_cols_ncols (xs : ndarray) (start final : Z) :
  0 <= start <= final -> final <= Z.of_nat (ncols xs) ->
  ncols (slice_cols xs start final) = Z.to_nat (final - start).
Proof.
  intros Hs Hf. unfold slice_cols, slice_bound. cbn [ncols].
  replace (start <? 0) with false by (symmetry; apply Z.ltb_ge; lia).
  replace (final <? 0) with false by (symmetry; apply Z.ltb_ge; lia).
  lia.
Qed.

(** An index at or beyond [num_factors] is refused by every class. *)
Lemma log_prob_i_beyond (d : Distribution) (i : Z) (xs : ndarray) :
  num_factors d <= i -> log_prob_i stats d i xs = Raise IndexError.
Proof.
  intros Hi. assert (Hge : (i >=? num_factors d) = true) by (apply Z.geb_le; lia).
  unfold log_prob_i, Bernoulli_log_prob_i, Beta_log_prob_i, Dirichlet_log_prob_i,
    InvGamma_log_prob_i, Multinomial_log_prob_i, Normal_log_prob_i,
    PointMass_log_prob_i.
  destruct (attrs d); by rewrite Hge.
Qed.

(** An index below [num_factors] yields one value per row of the batch. *)
Lemma log_prob_i_within (d : Distribution) (i : Z) (xs : ndarray) :
  well_formed d ->
  ncols xs = Z.to_nat (num_vars d) ->
  0 <= i < num_factors d ->
  exists vec, log_prob_i stats d i xs = Ok vec /\ length vec = nrows xs.
Proof.
  intros (Hnf & Hnv & Hwf) Hc Hi.
  assert (Hge : (i >=? num_factors d) = false).
  { destruct (i >=? num_factors d) eqn:E; [apply Z.geb_le in E; lia | done]. }
  unfold log_prob_i, Bernoulli_log_prob_i, Beta_log_prob_i, Dirichlet_log_prob_i,
    InvGamma_log_prob_i, Multinomial_log_prob_i, Normal_log_prob_i,
    PointMass_log_prob_i.
  destruct (attrs d) as [p|a b|K a|a b|K a|lo sc|ps]; rewrite Hge.
  - destruct Hwf as [Hv Hp].
    rewrite get_col_in_range by lia.
    destruct (py_index_in_range p i) as [x ->]; [lia|].
    eexists. split; [reflexivity|]. unfold nrows. by rewrite !length_map.
  - destruct Hwf as (Hv & Ha & Hb).
    rewrite get_col_in_range by lia.
    destruct (py_index_in_range a i) as [x ->]; [lia|].
    destruct (py_index_in_range b i) as [y ->]; [lia|].
    eexists. split; [reflexivity|]. unfold nrows. by rewrite !length_map.
  - destruct Hwf as [Hv Ha]. unfold get_row.
    destruct (py_index_in_range (rows a) i) as [x ->]; [unfold nrows in Ha; lia|].
    eexists. split; [reflexivity|].
    rewrite length_map. apply slice_cols_nrows.
  - destruct Hwf as (Hv & Ha & Hb).
    rewrite get_col_in_range by lia.
    destruct (py_index_in_range a i) as [x ->]; [lia|].
    destruct (py_index_in_range b i) as [y ->]; [lia|].
    eexists. split; [reflexivity|]. unfold nrows. by rewrite !length_map.
  - destruct Hwf as [Hv Ha]. unfold get_row.
    destruct (py_index_in_range (rows a) i) as [x ->]; [unfold nrows in Ha; lia|].
    eexists. split; [reflexivity|].
    rewrite length_map. apply slice_cols_nrows.
  - destruct Hwf as (Hv & Hl & Hs).
    destruct (py_index_in_range lo i) as [x ->]; [lia|].
    destruct (py_index_in_range sc i) as [y ->]; [lia|].
    rewrite get_col_in_range by lia.
    eexists. split; [reflexivity|]. unfold nrows. by rewrite !length_map.
  - destruct Hwf as (Hone & Hv & Hp).
    rewrite get_col_in_range by lia.
    destruct (py_index_in_range ps i) as [x ->]; [lia|].
    eexists. split; [reflexivity|]. unfold nrows. by rewrite !length_map.
Qed.

Lemma sum_over_nonneg (f : Distribution -> Z) (ls : list Distribution) :
  Forall (fun l => 0 <= f l) ls -> 0 <= sum_over f ls.
Proof. induction 1; simpl; lia. Qed.

Lemma log_prob_i_loop_beyond {A : Type}
    (call : Distribution -> Z -> ndarray -> result A)
    (ls : list Distribution) (i : Z) (xs : ndarray) (start final : Z) :
  Forall (fun l => 0 <= num_factors l) ls ->
  sum_over num_factors ls <= i ->
  log_prob_i_loop call ls i xs start final = Raise IndexError.
Proof.
  intros HF. revert i start final.
  induction HF as [|l ls Hl HF IH]; intros i start final Hi; simpl in *; [done|].
  pose proof (sum_over_nonneg num_factors ls HF) as Hrest.
  replace (i <? num_factors l) with false by (symmetry; apply Z.ltb_ge; lia).
  apply IH. lia.
Qed.

Lemma log_prob_i_loop_within (ls : list Distribution) (i : Z) (xs : ndarray)
    (start : Z) :
  Forall well_formed ls ->
  0 <= i < sum_over num_factors ls ->
  0 <= start ->
  start + sum_over num_vars ls <= Z.of_nat (ncols xs) ->
  exists vec, log_prob_i_loop (log_prob_i stats) ls i xs start start = Ok vec
              /\ length vec = nrows xs.
Proof.
  intros HF. revert i start.
  induction HF as [|l ls Hl HF IH]; intros i start Hi Hs Hn; simpl in *; [lia|].
  assert (Hrest : 0 <= sum_over num_vars ls).
  { apply sum_over_nonneg. eapply Forall_impl; [exact HF|].
    by intros d (_ & ? & _). }
  pose proof Hl as (Hnf & Hnv & _).
  destruct (i <? num_factors l) eqn:Hlt.
  - apply Z.ltb_lt in Hlt.
    destruct (log_prob_i_within l i (slice_cols xs start (start + num_vars l)))
      as (vec & Hvec & Hlen); [done | | lia |].
    + rewrite slice_cols_ncols by lia. f_equal. lia.
    + exists vec. split; [done|]. by rewrite Hlen, slice_cols_nrows.
  - apply Z.ltb_ge in Hlt. apply IH; lia.
Qed.

(** Within the invariant: [log_prob_i] with an index at or beyond
    [num_factors] raises [IndexError], for each class and for a composite
    whose aggregates are those of its layers; with an index in
    [[0, num_factors)] it returns one value per row of the batch. The
    batch has [num_vars] columns and the parameters of a layer have the
    shape its constructor gives them. *)
Theorem log_prob_i_index_range (d : Distribution) (v : Variational.t) (h : heap)
    (i : Z) (xs : ndarray) :
  (num_factors d <= i -> log_prob_i stats d i xs = Raise IndexError)
  /\ (well_formed d ->
      ncols xs = Z.to_nat (num_vars d) ->
      0 <= i < num_factors d ->
      exists vec, log_prob_i stats d i xs = Ok vec /\ length vec = nrows xs)
  /\ (invariant h v ->
      Forall well_formed (h !!! Variational.layers v) ->
      (Variational.num_factors v <= i ->
       Variational_log_prob_i stats v i xs h = Raise IndexError)
      /\ (ncols xs = Z.to_nat (Variational.num_vars v) ->
          0 <= i < Variational.num_factors v ->
          exists vec, Variational_log_prob_i stats v i xs h = Ok vec
                      /\ length vec = nrows xs)).
Proof.
  split; [apply log_prob_i_beyond|].
  split; [apply log_prob_i_within|].
  intros (Hf & Hv & _) HF.
  unfold Variational_log_prob_i, Variational_log_prob_i_with. split.
  - intros Hi. apply log_prob_i_loop_beyond; [|lia].
    eapply Forall_impl; [exact HF|]. by intros l (? & _).
  - intros Hc Hi. apply log_prob_i_loop_within; [done | lia | lia | lia].
Qed.

(** [well_formed] asks a PointMass for at least one variable: over no
    variable its one factor has no column to read. *)
Remark PointMass_no_variable_log_prob_i :
  PointMass_init random_normal_draw 0 (Some []) = mret pointmass0
  /\ log_prob_i stats pointmass0 0 empty_row_batch = Raise IndexError.
Proof. split; reflexivity. Qed.

(** Objects built with default parameters are well formed. *)
Lemma default_well_formed (d : Distribution) (g g' : rng) :
  (exists n, 0 <= n /\ Bernoulli_init random_normal_draw n None g = (Ok d, g'))
  \/ (exists n, 0 <= n /\ Beta_init random_normal_draw n None None g = (Ok d, g'))
  \/ (exists n K, 0 <= n /\ 0 <= K
                  /\ Dirichlet_init random_normal_draw [n; K] None g = (Ok d, g'))
  \/ (exists n, 0 <= n /\ InvGamma_init random_normal_draw n None None g = (Ok d, g'))
  \/ (exists n K, 0 <= n /\ 0 <= K
                  /\ Multinomial_init random_normal_draw [n; K] None g = (Ok d, g'))
  \/ (exists n, 0 <= n /\ Normal_init random_normal_draw n None None g = (Ok d, g'))
  \/ (exists n, 1 <= n /\ PointMass_init random_normal_draw n None g = (Ok d, g')) ->
  well_formed d.
Proof.
  unfold well_formed.
  intros [(n & Hn & H)|[(n & Hn & H)|[(n & K & Hn & HK & H)|[(n & Hn & H)|
         [(n & K & Hn & HK & H)|[(n & Hn & H)|(n & Hn & H)]]]]]].
  - apply Bernoulli_init_spec in H as (p & -> & Hp). cbn. repeat split; lia.
  - apply Beta_init_spec in H as (a & b & -> & Ha & Hb). cbn. repeat split; lia.
  - apply Dirichlet_init_spec in H as (n' & K' & a & [= <-] & [= <-] & -> & Hr & _).
    cbn. repeat split; try lia; try nia.
  - apply InvGamma_init_spec in H as (a & b & -> & Ha & Hb). cbn. repeat split; lia.
  - apply Multinomial_init_spec in H
      as (n' & K' & a & [= <-] & [= <-] & _ & -> & Hr).
    cbn. repeat split; try lia; try nia.
  - apply Normal_init_spec in H as (l & s & -> & Hl & Hs). cbn. repeat split; lia.
  - apply PointMass_init_spec in H as (ps & -> & Hp). cbn. repeat split; lia.
Qed.

(** *** Which computations can end in NotImplementedError *)

Lemma never_unsupported_mret {A : Type} (a : A) : never_unsupported (@mret rng A a).
Proof. intros g. discriminate. Qed.

Lemma never_unsupported_lift {A : Type} (r : result A) :
  r <> Raise NotImplementedError -> never_unsupported (@lift rng A r).
Proof. intros Hr g. exact Hr. Qed.

Lemma never_unsupported_mbind {A B : Type} (m : M rng A) (k : A -> M rng B) :
  never_unsupported m -> (forall a, never_unsupported (k a)) ->
  never_unsupported (mbind m k).
Proof.
  intros Hm Hk g. unfold mbind. specialize (Hm g).
  destruct (m g) as [[a|e] g1]; [apply Hk|].
  cbn in *. intros [= ->]. by apply Hm.
Qed.

Lemma never_unsupported_draw {A : Type} (f : rng -> A * rng) :
  never_unsupported (draw f).
Proof. intros g. unfold draw. destruct (f g). discriminate. Qed.

Lemma never_unsupported_repeatM {A : Type} (n : nat) (m : M rng A) :
  never_unsupported m -> never_unsupported (repeatM n m).
Proof.
  intros Hm. induction n as [|n IH]; simpl.
  - apply never_unsupported_mret.
  - apply never_unsupported_mbind; [done|]. intros a.
    apply never_unsupported_mbind; [done|]. intros l.
    apply never_unsupported_mret.
Qed.

Lemma never_unsupported_foldM {A S : Type} (l : list A) (body : S -> A -> M rng S)
    (s : S) :
  (forall s a, never_unsupported (body s a)) -> never_unsupported (foldM l body s).
Proof.
  intros Hb. revert s. induction l as [|a l IH]; intros s; simpl.
  - apply never_unsupported_mret.
  - apply never_unsupported_mbind; [apply Hb | apply IH].
Qed.

Lemma py_index_supported {A : Type} (l : list A) (i : Z) :
  py_index l i <> Raise NotImplementedError.
Proof.
  unfold py_index.
  destruct ((0 <=? _) && _); [|discriminate].
  destruct (l !! _); discriminate.
Qed.

Lemma np_zeros_supported (n m : Z) : np_zeros n m <> Raise NotImplementedError.
Proof. unfold np_zeros. destruct (_ || _); discriminate. Qed.

Lemma set_col_supported (x : ndarray) (d : Z) (col : vector) :
  set_col x d col <> Raise NotImplementedError.
Proof. unfold set_col. destruct (_ && _); discriminate. Qed.

Lemma set_block_supported (x : ndarray) (a b : Z) (block : list vector) :
  set_block x a b block <> Raise NotImplementedError.
Proof. unfold set_block. destruct (forallb _ _); discriminate. Qed.

Ltac supported :=
  repeat first
    [ apply never_unsupported_mret
    | apply never_unsupported_lift;
      first [ apply py_index_supported | apply np_zeros_supported
            | apply set_col_supported | apply set_block_supported ]
    | apply never_unsupported_repeatM
    | apply never_unsupported_draw
    | apply never_unsupported_foldM; intros
    | apply never_unsupported_mbind; [|intros] ].

(** The samplers of the classes that override [sample] with draws from
    [edward.stats] never end in [NotImplementedError]. *)
Lemma native_samplers_supported (d : Distribution) (size : Z) :
  match attrs d with
  | Normal _ _ | PointMass _ => True
  | _ => never_unsupported (sample random_normal_draw stats d size)
  end.
Proof.
  unfold sample, Bernoulli_sample, Beta_sample, Dirichlet_sample, InvGamma_sample,
    Multinomial_sample, rvs, get_row.
  destruct (attrs d); try exact I; supported.
Qed.

(** *** The two ways of sampling *)

Lemma Distribution_sample_unsupported (d : Distribution) (size : Z) (g : rng) :
  defines_reparam d = false ->
  Distribution_sample random_normal_draw d size g = (Raise NotImplementedError, g).
Proof.
  unfold defines_reparam, Distribution_sample, sample_noise.
  by destruct (attrs d).
Qed.

Lemma Normal_sample_ok (n : Z) (l s : vector) (size : Z) (g : rng) :
  let d := {| num_factors := n; num_vars := n; num_params := 2 * n;
              sample_tensor := true; attrs := Normal l s |} in
  sample random_normal_draw stats d size g = Distribution_sample random_normal_draw d size g
  /\ exists x g', Distribution_sample random_normal_draw d size g = (Ok x, g').
Proof.
  cbv zeta. split; [reflexivity|].
  unfold Distribution_sample, sample_noise, Normal_sample_noise, reparam, Normal_reparam.
  cbn [attrs num_vars].
  destruct (random_normal2_ok size n g) as (eps & g' & Heps & _).
  rewrite (mbind_ok _ _ _ _ _ Heps). unfold lift. eauto.
Qed.

(** C6, amended. Among the objects the constructors return, a [Normal]
    is the only one whose [sample(size)] is
    [reparam(sample_noise(size))], and it succeeds, with [sample_tensor]
    true. A [PointMass] also has [sample_tensor] true, but its [sample]
    is its own method, the stack of [size >= 1] copies of [params]; it defines
    neither [sample_noise] nor [reparam], and [reparam(sample_noise(size))]
    raises [NotImplementedError] on it. Every other class has
    [sample_tensor] false and its own sampler, which never ends in the
    error that [reparam(sample_noise(size))] raises on it. *)
Theorem sample_paths (d : Distribution) (size : Z) (g : rng) :
  built random_normal_draw d ->
  match attrs d with
  | Normal _ _ =>
      sample_tensor d = true
      /\ sample random_normal_draw stats d size g
         = Distribution_sample random_normal_draw d size g
      /\ exists x g', Distribution_sample random_normal_draw d size g = (Ok x, g')
  | PointMass params =>
      sample_tensor d = true
      /\ Distribution_sample random_normal_draw d size g = (Raise NotImplementedError, g)
      /\ (1 <= size ->
          sample random_normal_draw stats d size g
          = (Ok {| ncols := length params; rows := replicate (Z.to_nat size) params |}, g))
  | _ =>
      sample_tensor d = false
      /\ Distribution_sample random_normal_draw d size g = (Raise NotImplementedError, g)
      /\ (sample random_normal_draw stats d size g).1 <> Raise NotImplementedError
  end.
Proof.
  intros (g0 & g1 & [(n & p & H)|[(n & a & b & H)|[(sh & a & H)|[(n & a & b & H)|
         [(sh & a & H)|[(n & l & s & H)|(n & ps & H)]]]]]]).
  - apply Bernoulli_init_spec in H as (p' & -> & _). cbn [attrs sample_tensor].
    split; [done|]. split; [by apply Distribution_sample_unsupported|].
    apply (native_samplers_supported (mk_Distribution n n n false (Bernoulli p'))).
  - apply Beta_init_spec in H as (a' & b' & -> & _). cbn [attrs sample_tensor].
    split; [done|]. split; [by apply Distribution_sample_unsupported|].
    apply (native_samplers_supported (mk_Distribution n n (2 * n) false (Beta a' b'))).
  - apply Dirichlet_init_spec in H as (n & K & a' & _ & _ & -> & _).
    cbn [attrs sample_tensor].
    split; [done|]. split; [by apply Distribution_sample_unsupported|].
    apply (native_samplers_supported
             (mk_Distribution n (K * n) (K * n) false (Dirichlet K a'))).
  - apply InvGamma_init_spec in H as (a' & b' & -> & _). cbn [attrs sample_tensor].
    split; [done|]. split; [by apply Distribution_sample_unsupported|].
    apply (native_samplers_supported
             (mk_Distribution n n (2 * n) false (InvGamma a' b'))).
  - apply Multinomial_init_spec in H as (n & K & a' & _ & _ & _ & -> & _).
    cbn [attrs sample_tensor].
    split; [done|]. split; [by apply Distribution_sample_unsupported|].
    apply (native_samplers_supported
             (mk_Distribution n (K * n) (K * n) false (Multinomial K a'))).
  - apply Normal_init_spec in H as (l' & s' & -> & _). cbn [attrs sample_tensor].
    split; [done|]. apply Normal_sample_ok.
  - apply PointMass_init_spec in H as (ps' & -> & _). cbn [attrs sample_tensor].
    split; [done|]. split; [by apply Distribution_sample_unsupported|].
    intros Hsize. unfold sample, PointMass_sample. cbn [attrs].
    replace (size <=? 0) with false by (symmetry; apply Z.leb_gt; lia).
    reflexivity.
Qed.

(** C6 as stated fails for PointMass: [sample(1)] returns the parameters,
    while [reparam(sample_noise(1))] raises. *)
Lemma PointMass_sample_not_reparam :
  PointMass_init zero_draw 1 (Some [0%R]) tt = (Ok pointmass1, tt)
  /\ sample zero_draw zero_stats pointmass1 1 tt
     = (Ok {| ncols := 1; rows := [[0%R]] |}, tt)
  /\ mbind (sample_noise zero_draw pointmass1 1)
           (fun eps => lift (reparam pointmass1 eps)) tt
     = (Raise NotImplementedError, tt)
  /\ sample zero_draw zero_stats pointmass1 1 tt
     <> mbind (sample_noise zero_draw pointmass1 1)
              (fun eps => lift (reparam pointmass1 eps)) tt.
Proof.
  split; [reflexivity|]. split; [reflexivity|]. split; [reflexivity|].
  discriminate.
Qed.

(** C3. In the state that
    [v1 = Variational(); v2 = Variational(); v1.add(layer)] leaves,
    [v2.num_factors] is 0 and yet [v2.log_prob_i(0, xs)] returns the log
    density of the layer instead of raising [IndexError]:
    [Variational.log_prob_i] goes through the list, which the two objects
    share and which has one layer, and never reads [num_factors]. *)
Theorem Variational_log_prob_i_shared_default :
  let v1 := Variational_init default_layers initial_heap in
  let v2 := Variational_init default_layers initial_heap in
  let h1 := (Variational_add v1 unit_normal initial_heap).2 in
  let xs := {| ncols := 1; rows := [[0%R]] |} in
  Normal_init zero_draw 1 (Some [0%R]) (Some [1%R]) tt = (Ok unit_normal, tt)
  /\ Variational.num_factors v2 = 0
  /\ Variational.num_factors v2 <= 0
  /\ Variational_log_prob_i stats v2 0 xs h1 = Ok [norm_logpdf stats 0%R 0%R 1%R]
  /\ Variational_log_prob_i stats v2 0 xs h1 <> Raise IndexError.
Proof.
  cbv zeta. split; [reflexivity|].
  rewrite Variational_init_default_first.
  cbn [Variational.num_factors].
  split; [reflexivity|]. split; [lia|].
  assert (Hval : Variational_log_prob_i stats
                   {| Variational.layers := default_layers;
                      Variational.num_factors := 0;
                      Variational.num_vars := 0;
                      Variational.num_params := 0;
                      Variational.is_reparam := true;
                      Variational.is_normal := true;
                      Variational.is_entropy := true;
                      Variational.sample_tensor := [] |} 0
                   {| ncols := 1; rows := [[0%R]] |}
                   (Variational_add
                      {| Variational.layers := default_layers;
                         Variational.num_factors := 0;
                         Variational.num_vars := 0;
                         Variational.num_params := 0;
                         Variational.is_reparam := true;
                         Variational.is_normal := true;
                         Variational.is_entropy := true;
                         Variational.sample_tensor := [] |}
                      unit_normal initial_heap).2
                 = Ok [norm_logpdf stats 0%R 0%R 1%R]).
  { unfold Variational_log_prob_i, Variational_log_prob_i_with, Variational_add.
    cbn [fst snd Variational.layers].
    rewrite lookup_total_insert_eq. unfold initial_heap.
    rewrite lookup_total_singleton_eq. reflexivity. }
  split; [exact Hval|]. rewrite Hval. discriminate.
Qed.

End Properties.

(** ** The statements at concrete inputs *)

Lemma Multinomial_default_pi_simplex_witness :
  (forall pi_unconst : ndarray,
      nrows pi_unconst = Z.to_nat 1 ->
      ncols pi_unconst = Z.to_nat (2 - 1) ->
      shape_ok pi_unconst ->
      exists pi, stick_breaking 1 2 pi_unconst = Ok pi /\ simplex_rows 1 2 pi)
  /\ (exists d g' pi,
        Multinomial_init zero_draw [1; 2] None tt = (Ok d, g')
        /\ attrs d = Multinomial 2 pi
        /\ simplex_rows 1 2 pi).
Proof. apply (Multinomial_default_pi_simplex zero_draw 1 2 tt); lia. Defined.

Lemma Multinomial_init_K_witness :
  Multinomial_init zero_draw [3; 1] None tt = (Raise (ValueError K1_message), tt)
  /\ exists d g', Multinomial_init zero_draw [3; 2] None tt = (Ok d, g').
Proof.
  split.
  - apply (Multinomial_init_K zero_draw [3; 1] None tt 3 1); reflexivity.
  - apply (Multinomial_init_K zero_draw [3; 2] None tt 3 2);
      [reflexivity | reflexivity | lia | intros _; lia].
Defined.

Lemma Variational_normal3_bernoulli2_witness :
  exists L1 g1 L2 g2,
    Normal_init zero_draw 3 (Some [0%R; 0%R; 0%R]) (Some [1%R; 1%R; 1%R]) tt = (Ok L1, g1)
    /\ Bernoulli_init zero_draw 2 (Some [(1 / 2)%R; (1 / 2)%R]) g1 = (Ok L2, g2)
    /\ normal3_bernoulli2_facts L2 (Variational_of_list [L1; L2] initial_heap).1
                                   (Variational_of_list [L1; L2] initial_heap).2
    /\ normal3_bernoulli2_facts L2
         (Variational_add
            (Variational_add (Variational_init default_layers initial_heap) L1
                             initial_heap).1
            L2
            (Variational_add (Variational_init default_layers initial_heap) L1
                             initial_heap).2).1
         (Variational_add
            (Variational_add (Variational_init default_layers initial_heap) L1
                             initial_heap).1
            L2
            (Variational_add (Variational_init default_layers initial_heap) L1
                             initial_heap).2).2.
Proof.
  destruct (Variational_normal3_bernoulli2 zero_draw
              (Some [0%R; 0%R; 0%R]) (Some [1%R; 1%R; 1%R])
              (Some [(1 / 2)%R; (1 / 2)%R]) tt default_layers initial_heap)
    as (L1 & g1 & L2 & g2 & H1 & H2 & H3 & H4).
  exists L1, g1, L2, g2.
  split; [exact H1|]. split; [exact H2|]. split; [exact H3|].
  apply H4. reflexivity.
Defined.

Lemma log_prob_i_index_range_witness :
  let h : heap := {[ default_layers := [normal3; bernoulli2] ]} in
  let v := Variational_init default_layers h in
  log_prob_i zero_stats bernoulli2 2 one_row_batch = Raise IndexError
  /\ (exists vec,
        log_prob_i zero_stats bernoulli2 1 (slice_cols one_row_batch 3 5) = Ok vec
        /\ length vec = nrows (slice_cols one_row_batch 3 5))
  /\ Variational_log_prob_i zero_stats v 5 one_row_batch h = Raise IndexError
  /\ (exists vec,
        Variational_log_prob_i zero_stats v 3 one_row_batch h = Ok vec
        /\ length vec = nrows one_row_batch).
Proof.
  intros h v.
  assert (Hwf3 : well_formed normal3) by (unfold well_formed; cbn; lia).
  assert (Hwf2 : well_formed bernoulli2) by (unfold well_formed; cbn; lia).
  assert (Hinv : invariant h v) by apply Variational_init_invariant.
  assert (Hall : Forall well_formed (h !!! Variational.layers v)).
  { change (h !!! Variational.layers v) with [normal3; bernoulli2].
    constructor; [exact Hwf3|]. constructor; [exact Hwf2|]. constructor. }
  destruct (log_prob_i_index_range zero_stats bernoulli2 v h 2 one_row_batch)
    as (Hbeyond & _ & _).
  destruct (log_prob_i_index_range zero_stats bernoulli2 v h 1
              (slice_cols one_row_batch 3 5)) as (_ & Hwithin & _).
  destruct (log_prob_i_index_range zero_stats bernoulli2 v h 5 one_row_batch)
    as (_ & _ & Hv5).
  destruct (log_prob_i_index_range zero_stats bernoulli2 v h 3 one_row_batch)
    as (_ & _ & Hv3).
  assert (Hnf : Variational.num_factors v = 5) by reflexivity.
  split; [apply Hbeyond; cbn; lia|].
  split; [apply Hwithin; [exact Hwf2 | reflexivity | cbn; lia]|].
  split; [apply (Hv5 Hinv Hall); lia|].
  apply (Hv3 Hinv Hall); [reflexivity | lia].
Defined.

Lemma sample_paths_witness :
  (sample_tensor normal3 = true
   /\ sample zero_draw zero_stats normal3 2 tt = Distribution_sample zero_draw normal3 2 tt
   /\ exists x g', Distribution_sample zero_draw normal3 2 tt = (Ok x, g'))
  /\ (sample_tensor pointmass1 = true
      /\ Distribution_sample zero_draw pointmass1 2 tt = (Raise NotImplementedError, tt)
      /\ sample zero_draw zero_stats pointmass1 2 tt
         = (Ok {| ncols := 1; rows := replicate (Z.to_nat 2) [0%R] |}, tt))
  /\ (sample_tensor bernoulli2 = false
      /\ Distribution_sample zero_draw bernoulli2 2 tt = (Raise NotImplementedError, tt)
      /\ (sample zero_draw zero_stats bernoulli2 2 tt).1 <> Raise NotImplementedError).
Proof.
  split; [|split].
  - apply (sample_paths zero_draw zero_stats normal3 2 tt).
    exists tt, tt. do 5 right. left.
    exists 3, (Some [0%R; 0%R; 0%R]), (Some [1%R; 1%R; 1%R]). reflexivity.
  - assert (Hpm : built zero_draw pointmass1).
    { exists tt, tt. do 6 right. exists 1, (Some [0%R]). reflexivity. }
    destruct (sample_paths zero_draw zero_stats pointmass1 2 tt Hpm) as (H1 & H2 & H3).
    split; [exact H1|]. split; [exact H2|]. apply H3. lia.
  - apply (sample_paths zero_draw zero_stats bernoulli2 2 tt).
    exists tt, tt. left.
    exists 2, (Some [(1 / 2)%R; (1 / 2)%R]). reflexivity.
Defined.

Lemma Variational_entropy_sum_witness :
  let h : heap := {[ default_layers := [normal3; bernoulli2] ]} in
  let v := Variational_init default_layers h in
  Variational_entropy zero_stats v h
  = Ok (reduce_sum [reduce_sum [0%R; 0%R; 0%R]; reduce_sum [0%R; 0%R]])
  /\ Variational_entropy zero_stats (Variational_init default_layers initial_heap)
                         initial_heap = Ok 0%R
  /\ Variational_entropy zero_stats
       (Variational_init default_layers {[ default_layers := [normal3; pointmass1] ]})
       {[ default_layers := [normal3; pointmass1] ]}
     = Raise NotImplementedError.
Proof.
  intros h v. split; [|split].
  - apply (Variational_entropy_sum zero_stats v h).
    change (h !!! Variational.layers v) with [normal3; bernoulli2].
    repeat constructor.
  - apply (Variational_entropy_sum zero_stats
             (Variational_init default_layers initial_heap) initial_heap).
    reflexivity.
  - apply (Variational_entropy_sum zero_stats
             (Variational_init default_layers {[ default_layers := [normal3; pointmass1] ]})
             {[ default_layers := [normal3; pointmass1] ]})
      with (pre := [normal3]) (post := []) (l := pointmass1).
    + reflexivity.
    + repeat constructor. eexists. reflexivity.
    + reflexivity.
Defined.

Lemma PointMass_sample_rows_witness :
  exists d g1 params x,
    PointMass_init zero_draw 2 (Some [0%R; 7%R]) tt = (Ok d, g1)
    /\ attrs d = PointMass params
    /\ sample zero_draw zero_stats d 3 tt = (Ok x, tt)
    /\ nrows x = Z.to_nat 3
    /\ (1 <= nrows x)%nat
    /\ ncols x = Z.to_nat (num_vars d)
    /\ shape_ok x
    /\ Forall (fun row => row = params) (rows x).
Proof.
  apply (PointMass_sample_rows zero_draw zero_stats 2 (Some [0%R; 7%R]) tt tt 3);
    [reflexivity | lia].
Defined.

Lemma unsupported_operations_witness :
  (forall size g eps,
      sample_noise zero_draw bernoulli2 size g = (Raise NotImplementedError, g)
      /\ reparam bernoulli2 eps = Raise NotImplementedError)
  /\ defines_entropy pointmass2 = false
  /\ entropy zero_stats pointmass2 = Raise NotImplementedError.
Proof.
  split.
  - apply (unsupported_operations zero_draw zero_stats bernoulli2). reflexivity.
  - apply (unsupported_operations zero_draw zero_stats pointmass2) with (params := [0%R; 7%R]).
    reflexivity.
Defined.

Lemma PointMass_single_factor_witness :
  exists d g1,
    PointMass_init zero_draw 2 (Some [0%R; 7%R]) tt = (Ok d, g1)
    /\ attrs d = PointMass [0%R; 7%R]
    /\ num_factors d = 1 /\ num_vars d = 2 /\ num_params d = 2
    /\ log_prob_i zero_stats d 1 {| ncols := 2; rows := [[0%R; 5%R]] |}
       = Raise IndexError
    /\ log_prob_i zero_stats d 0 {| ncols := 2; rows := [[0%R; 5%R]] |}
       = Ok [tf_equal_cast 0%R 0%R].
Proof.
  destruct (PointMass_single_factor zero_draw zero_stats 2 (Some [0%R; 7%R]) tt)
    as (d & g1 & params & H0 & Ha & Hp & H1 & H2 & H3 & H4 & H5).
  cbn beta iota in Hp. subst params.
  exists d, g1.
  split; [exact H0|]. split; [exact Ha|].
  split; [exact H1|]. split; [exact H2|]. split; [exact H3|]. split.
  - apply H4. lia.
  - apply (H5 {| ncols := 2; rows := [[0%R; 5%R]] |} 0%R [7%R]); [reflexivity | cbn; lia].
Defined.

(** ** Further properties *)

Section MoreProperties.

Context {rng : Type}.
Variable random_normal_draw : rng -> R * rng.
Variable stats : edward_stats rng.

(** *** cumprod *)

Lemma running_lookup (values : list R) (prev : R) (k : nat) :
  (k < length values)%nat ->
  running prev values !! k = Some (prev * product (take (S k) values))%R.
Proof.
  revert prev k. induction values as [|val rest IH]; intros prev k Hk; simpl in *.
  - lia.
  - destruct k as [|k]; simpl.
    + f_equal. unfold product. destruct rest; simpl; lra.
    + rewrite IH by lia. f_equal. unfold product. simpl. lra.
Qed.

(** X1. [cumprod] raises on an empty tensor; on any other it returns a
    tensor of the same length whose entry [k] is the product of the first
    [k + 1] entries of the argument. *)
Theorem cumprod_prefix_products (xs : vector) :
  (xs = [] -> cumprod xs = Raise IndexError)
  /\ (xs <> [] ->
      exists out, cumprod xs = Ok out
                  /\ length out = length xs
                  /\ forall k, (k < length xs)%nat ->
                               out !! k = Some (product (take (S k) xs))).
Proof.
  split; [by intros ->|].
  intros Hne. destruct xs as [|x xs]; [done|].
  eexists. split; [reflexivity|].
  rewrite cumprod_loop_running, app_nil_l. split.
  - apply length_running.
  - intros k Hk. rewrite running_lookup by done. f_equal. lra.
Qed.

(** *** The layer that owns a factor *)

Lemma log_prob_i_loop_owner {A : Type}
    (call : Distribution -> Z -> ndarray -> result A)
    (pre post : list Distribution) (l : Distribution) (i : Z) (xs : ndarray)
    (start : Z) :
  Forall (fun l => 0 <= num_factors l) pre ->
  sum_over num_factors pre <= i < sum_over num_factors pre + num_factors l ->
  log_prob_i_loop call (pre ++ l :: post) i xs start start
  = call l (i - sum_over num_factors pre)
         (slice_cols xs (start + sum_over num_vars pre)
                        (start + sum_over num_vars pre + num_vars l)).
Proof.
  intros HF. revert i start.
  induction HF as [|l0 pre Hl0 HF IH]; intros i start Hi; simpl in *.
  - replace (i <? num_factors l) with true by (symmetry; apply Z.ltb_lt; lia).
    f_equal; [lia|]. f_equal; lia.
  - pose proof (sum_over_nonneg num_factors pre HF) as Hpre.
    replace (i <? num_factors l0) with false by (symmetry; apply Z.ltb_ge; lia).
    rewrite IH by lia. f_equal; [lia|]. f_equal; lia.
Qed.

(** X2. In a Variational whose layers have non-negative factor counts,
    [log_prob_i(i, xs)] for a factor index that falls in layer [l] calls
    [l.log_prob_i] with the index counted from the first factor of [l]
    and with the columns of [xs] from the total [num_vars] of the layers
    before [l] up to that total plus [l.num_vars]. *)
Theorem Variational_log_prob_i_owner {A : Type}
    (call : Distribution -> Z -> ndarray -> result A)
    (v : Variational.t) (h : heap)
    (pre post : list Distribution) (l : Distribution) (i : Z) (xs : ndarray) :
  h !!! Variational.layers v = pre ++ l :: post ->
  Forall (fun l => 0 <= num_factors l) pre ->
  sum_over num_factors pre <= i < sum_over num_factors pre + num_factors l ->
  Variational_log_prob_i_with call v i xs h
  = call l (i - sum_over num_factors pre)
         (slice_cols xs (sum_over num_vars pre) (sum_over num_vars pre + num_vars l)).
Proof.
  intros Hls HF Hi. unfold Variational_log_prob_i_with. rewrite Hls.
  by rewrite log_prob_i_loop_owner.
Qed.

Lemma log_prob_i_loop_app_before {A : Type}
    (call : Distribution -> Z -> ndarray -> result A)
    (ls : list Distribution) (layer : Distribution) (i : Z) (xs : ndarray)
    (start final : Z) :
  0 <= i < sum_over num_factors ls ->
  log_prob_i_loop call (ls ++ [layer]) i xs start final
  = log_prob_i_loop call ls i xs start final.
Proof.
  revert i start final.
  induction ls as [|l0 ls IH]; intros i start final Hi; simpl in *; [lia|].
  destruct (i <? num_factors l0) eqn:Hlt; [done|].
  apply Z.ltb_ge in Hlt. apply IH. lia.
Qed.

(** X3. After [add(layer)] on a Variational whose aggregates are those of
    its layers, the factors it already had keep their indices and their
    log densities, and factor [k] of the new layer has index
    [num_factors + k] and reads the columns from [num_vars] on, where
    [num_factors] and [num_vars] are the totals before the call. *)
Theorem Variational_add_log_prob_i {A : Type}
    (call : Distribution -> Z -> ndarray -> result A)
    (v : Variational.t) (layer : Distribution) (h : heap) (xs : ndarray) :
  invariant h v ->
  Forall (fun l => 0 <= num_factors l) (h !!! Variational.layers v) ->
  (forall i, 0 <= i < Variational.num_factors v ->
     Variational_log_prob_i_with call (Variational_add v layer h).1 i xs
                                 (Variational_add v layer h).2
     = Variational_log_prob_i_with call v i xs h)
  /\ (forall k, 0 <= k < num_factors layer ->
       Variational_log_prob_i_with call (Variational_add v layer h).1
                                   (Variational.num_factors v + k) xs
                                   (Variational_add v layer h).2
       = call layer k
              (slice_cols xs (Variational.num_vars v)
                             (Variational.num_vars v + num_vars layer))).
Proof.
  intros (Hf & Hv & _) HF.
  unfold Variational_log_prob_i_with, Variational_add.
  cbn [fst snd Variational.layers]. rewrite lookup_total_insert_eq. split.
  - intros i Hi. apply log_prob_i_loop_app_before. lia.
  - intros k Hk. rewrite log_prob_i_loop_owner; [|done|lia].
    rewrite Hf, Hv.
    replace (sum_over num_factors (h !!! Variational.layers v) + k
             - sum_over num_factors (h !!! Variational.layers v)) with k by lia.
    do 2 f_equal; lia.
Qed.

(** *** add and construction *)

Lemma py_sum_snoc (l : list Z) (x : Z) : py_sum (l ++ [x]) = py_sum l + x.
Proof. unfold py_sum. by rewrite fold_left_app. Qed.

Lemma py_all_snoc (l : list bool) (b : bool) : py_all (l ++ [b]) = py_all l && b.
Proof.
  unfold py_all. induction l as [|a l IH]; simpl.
  - by rewrite andb_true_r.
  - by rewrite IH, andb_assoc.
Qed.

(** X4. If the aggregates of a Variational are what its constructor
    computes from its list, then after [add(layer)] they are what the
    constructor computes from the extended list: updating on [add] and
    building anew agree, [sample_tensor] included. *)
Theorem Variational_add_as_init (v : Variational.t) (layer : Distribution) (h : heap) :
  v = Variational_init (Variational.layers v) h ->
  (Variational_add v layer h).1
  = Variational_init (Variational.layers v) (Variational_add v layer h).2.
Proof.
  intros Hv. remember (Variational.layers v) as l eqn:Hl.
  subst v. clear Hl.
  assert (Hlay : Variational.layers (Variational_init l h) = l).
  { unfold Variational_init. by destruct (h !!! l). }
  unfold Variational_add. cbn [fst snd]. rewrite Hlay.
  unfold Variational_init. rewrite lookup_total_insert_eq.
  destruct (h !!! l) as [|l0 ls]; cbn [app].
  - cbn. f_equal; try lia; by rewrite ?andb_true_r.
  - cbn [Variational.num_factors Variational.num_vars Variational.num_params
         Variational.is_reparam Variational.is_normal Variational.is_entropy
         Variational.sample_tensor Variational.layers].
    change (l0 :: ls ++ [layer]) with ((l0 :: ls) ++ [layer]).
    rewrite !map_app. cbn [map].
    by rewrite !py_sum_snoc, !py_all_snoc.
Qed.

(** *** Entropy and the capability flags *)

Lemma entropy_loop_snoc (ls : list Distribution) (layer : Distribution) (out : R) :
  entropy_loop stats (ls ++ [layer]) out
  = rbind (entropy_loop stats ls out)
          (fun a => rbind (entropy stats layer) (fun e => Ok (a + e)%R)).
Proof.
  revert out. induction ls as [|l ls IH]; intros out; simpl.
  - by destruct (entropy stats layer).
  - destruct (entropy stats l) as [e|e]; simpl; [apply IH | done].
Qed.

(** X5. The entropy of a Variational after [add(layer)] is its entropy
    before plus the entropy of the new layer; if the entropy before
    raises, or else if the entropy of the new layer raises, so does the
    entropy after, with that exception. *)
Theorem Variational_add_entropy (v : Variational.t) (layer : Distribution) (h : heap) :
  Variational_entropy stats (Variational_add v layer h).1 (Variational_add v layer h).2
  = match Variational_entropy stats v h with
    | Ok a =>
        match entropy stats layer with
        | Ok e => Ok (a + e)%R
        | Raise ex => Raise ex
        end
    | Raise ex => Raise ex
    end.
Proof.
  unfold Variational_entropy, Variational_add. cbn [fst snd Variational.layers].
  rewrite lookup_total_insert_eq, entropy_loop_snoc.
  destruct (entropy_loop stats (h !!! Variational.layers v) 0) as [a|ex]; simpl; [|done].
  by destruct (entropy stats layer).
Qed.

Lemma entropy_defined (l : Distribution) :
  if defines_entropy l then exists e, entropy stats l = Ok e
  else entropy stats l = Raise NotImplementedError.
Proof.
  unfold defines_entropy, entropy, Bernoulli_entropy, Beta_entropy, Dirichlet_entropy,
    InvGamma_entropy, Multinomial_entropy, Normal_entropy, Distribution_entropy.
  destruct (attrs l); eauto.
Qed.

Lemma entropy_loop_flag (ls : list Distribution) (out : R) :
  if forallb defines_entropy ls then exists e, entropy_loop stats ls out = Ok e
  else entropy_loop stats ls out = Raise NotImplementedError.
Proof.
  revert out. induction ls as [|l ls IH]; intros out; simpl; [eauto|].
  pose proof (entropy_defined l) as Hl.
  destruct (defines_entropy l); simpl.
  - destruct Hl as [e ->]. simpl. apply IH.
  - by rewrite Hl.
Qed.

Lemma forallb_Forall_true (f : Distribution -> bool) (ls : list Distribution) :
  forallb f ls = true <-> Forall (fun l => f l = true) ls.
Proof.
  induction ls as [|l ls IH]; simpl.
  - split; [constructor | done].
  - rewrite andb_true_iff, IH. split.
    + intros [H1 H2]. by constructor.
    + intros H. by inversion H.
Qed.

(** X6. For a Variational whose aggregates are those of its layers,
    [is_entropy] tells whether [entropy()] returns: it returns a value
    when the flag is true and raises [NotImplementedError] when the flag
    is false. *)
Theorem Variational_is_entropy_sound (v : Variational.t) (h : heap) :
  invariant h v ->
  if Variational.is_entropy v then exists e, Variational_entropy stats v h = Ok e
  else Variational_entropy stats v h = Raise NotImplementedError.
Proof.
  intros (_ & _ & _ & _ & _ & He). unfold Variational_entropy.
  pose proof (entropy_loop_flag (h !!! Variational.layers v) 0%R) as Hloop.
  rewrite <- forallb_Forall_true in He.
  destruct (Variational.is_entropy v).
  - destruct He as [He _]. by rewrite He in Hloop.
  - destruct (forallb defines_entropy (h !!! Variational.layers v)); [|done].
    destruct He as [_ He]. by specialize (He eq_refl).
Qed.

(** *** Default parameters *)

Lemma tf_softplus_pos (t : R) : (0 < tf_softplus t)%R.
Proof.
  unfold tf_softplus. rewrite <- ln_1.
  pose proof (exp_pos t). apply ln_increasing; lra.
Qed.

Lemma Forall_map_all {A : Type} (f : A -> R) (P : R -> Prop) (l : list A) :
  (forall a, P (f a)) -> Forall P (map f l).
Proof. intros Hf. induction l; simpl; constructor; auto. Qed.

(** X8. Built without explicit parameters, each constructor stores
    parameters in the domain of its distribution: the probabilities of a
    [Bernoulli] are strictly between 0 and 1, the shapes of a [Beta] and
    the scale of a [Normal] are positive, the shapes of an [InvGamma]
    are above 0.01, and every concentration of a [Dirichlet] is
    positive. *)
Theorem default_parameters_in_domain (n K : Z) (g : rng) :
  (exists d g' p,
      Bernoulli_init random_normal_draw n None g = (Ok d, g')
      /\ attrs d = Bernoulli p
      /\ Forall (fun v => 0 < v < 1)%R p)
  /\ (exists d g' a b,
        Beta_init random_normal_draw n None None g = (Ok d, g')
        /\ attrs d = Beta a b
        /\ Forall (fun v => 0 < v)%R a /\ Forall (fun v => 0 < v)%R b)
  /\ (exists d g' a b,
        InvGamma_init random_normal_draw n None None g = (Ok d, g')
        /\ attrs d = InvGamma a b
        /\ Forall (fun v => 1 / 100 < v)%R a /\ Forall (fun v => 1 / 100 < v)%R b)
  /\ (exists d g' loc scale,
        Normal_init random_normal_draw n None None g = (Ok d, g')
        /\ attrs d = Normal loc scale
        /\ Forall (fun v => 0 < v)%R scale)
  /\ (exists d g' alpha,
        Dirichlet_init random_normal_draw [n; K] None g = (Ok d, g')
        /\ attrs d = Dirichlet K alpha
        /\ Forall (Forall (fun v => 0 < v)%R) (rows alpha)).
Proof.
  repeat split.
  - destruct (random_normal1_ok random_normal_draw n g) as (v & g1 & Hv & _).
    eexists _, g1, _. unfold Bernoulli_init, mbind, mret. rewrite Hv.
    split; [reflexivity|]. split; [reflexivity|].
    apply Forall_map_all, tf_sigmoid_bounds.
  - destruct (random_normal1_ok random_normal_draw n g) as (v & g1 & Hv & _).
    destruct (random_normal1_ok random_normal_draw n g1) as (w & g2 & Hw & _).
    eexists _, g2, _, _. unfold Beta_init, mbind, mret. rewrite Hv, Hw.
    split; [reflexivity|]. split; [reflexivity|].
    split; apply Forall_map_all, tf_softplus_pos.
  - destruct (random_normal1_ok random_normal_draw n g) as (v & g1 & Hv & _).
    destruct (random_normal1_ok random_normal_draw n g1) as (w & g2 & Hw & _).
    eexists _, g2, _, _. unfold InvGamma_init, mbind, mret. rewrite Hv, Hw.
    split; [reflexivity|]. split; [reflexivity|].
    split; apply Forall_map_all; intros t; pose proof (tf_softplus_pos t); lra.
  - destruct (random_normal1_ok random_normal_draw n g) as (v & g1 & Hv & _).
    destruct (random_normal1_ok random_normal_draw n g1) as (w & g2 & Hw & _).
    eexists _, g2, _, _. unfold Normal_init, mbind, mret. rewrite Hv, Hw.
    split; [reflexivity|]. split; [reflexivity|].
    apply Forall_map_all, tf_softplus_pos.
  - destruct (random_normal2_ok random_normal_draw n K g) as (a & g1 & Ha & _).
    eexists _, g1, _. unfold Dirichlet_init, mbind, mret, lift.
    rewrite py_index_pair_first, py_index_pair_last, Ha.
    split; [reflexivity|]. split; [reflexivity|].
    unfold map2d. cbn [rows].
    induction (rows a) as [|r rs IH]; simpl; constructor; [|exact IH].
    apply Forall_map_all, tf_softplus_pos.
Qed.

(** *** More on the stick-breaking map *)

Lemma stick_pieces_pos (x : list R) (c : R) :
  (0 < c)%R ->
  Forall (fun a => (0 < a < 1)%R) x ->
  Forall (fun v => (0 < v)%R)
         (zip_with Rmult (c :: running c (map (fun v => (1 - v)%R) x)) (x ++ [1%R])).
Proof.
  intros Hc Hx. revert c Hc.
  induction Hx as [|a x Ha Hx IH]; intros c Hc; simpl.
  - constructor; [lra | constructor].
  - constructor; [nra|].
    apply (IH (c * (1 - a))%R). nra.
Qed.

Lemma reduce_sum_pos (l : list R) :
  Forall (fun v => (0 < v)%R) l -> l <> [] -> (0 < reduce_sum l)%R.
Proof.
  intros HF Hne. destruct HF as [|a l Ha HF]; [done|]. simpl.
  clear Hne. induction HF as [|b l Hb HF IH]; simpl in *; lra.
Qed.

Lemma reduce_sum_above (l : list R) :
  Forall (fun v => (0 < v)%R) l ->
  (2 <= length l)%nat ->
  Forall (fun v => (v < reduce_sum l)%R) l.
Proof.
  intros HF. induction HF as [|a l Ha HF IH]; intros Hlen; simpl in *; [lia|].
  constructor.
  - assert (0 < reduce_sum l)%R by (apply reduce_sum_pos; [done|]; destruct l; simpl in *; [lia|done]).
    lra.
  - destruct l as [|b l]; [constructor|].
    destruct l as [|b' l].
    + inversion HF; subst. constructor; [simpl; lra | constructor].
    + eapply Forall_impl; [apply IH; simpl; lia|].
      intros v Hv. cbn beta in Hv. lra.
Qed.

(** X9. For [K >= 2], every entry of the [pi] that [Multinomial] builds
    when none is given lies strictly between 0 and 1. *)
Theorem Multinomial_default_pi_interior (num_factors K : Z) (g : rng) :
  1 <= num_factors ->
  2 <= K ->
  exists d g' pi,
    Multinomial_init random_normal_draw [num_factors; K] None g = (Ok d, g')
    /\ attrs d = Multinomial K pi
    /\ Forall (Forall (fun v => 0 < v < 1)%R) (rows pi).
Proof.
  intros Hnf HK.
  destruct (Multinomial_init_default random_normal_draw [num_factors; K] num_factors K g)
    as (a & g' & _ & Hr & Hc & Hs & Hinit); [reflexivity | reflexivity | lia |].
  eexists _, g', _. split; [exact Hinit|]. split; [reflexivity|].
  cbn [rows]. apply Forall_map.
  unfold shape_ok in Hs. eapply Forall_impl; [exact Hs|].
  intros u Hu. cbn beta in *.
  assert (Hpos : Forall (fun v => (0 < v)%R) (stick_row K u)).
  { rewrite stick_row_unfold. cbv zeta. apply stick_pieces_pos; [lra|].
    apply Forall_forall. intros x Hx.
    apply elem_of_zip_with in Hx as (e & w & -> & _ & _).
    apply tf_sigmoid_bounds. }
  pose proof (reduce_sum_above _ Hpos) as Habove.
  destruct (stick_row_simplex K u) as [_ Hsum].
  rewrite Hsum in Habove.
  rewrite stick_row_length in Habove by lia.
  specialize (Habove ltac:(lia)).
  rewrite Forall_forall in *. intros v Hv. split; [by apply Hpos | by apply Habove].
Qed.

Lemma stick_pieces_harmonic (m : nat) (c : R) :
  zip_with Rmult (c :: running c (map (fun v => (1 - v)%R) (harmonic m)))
           (harmonic m ++ [1%R])
  = replicate (S m) (c / (1 + INR m))%R.
Proof.
  revert c. induction m as [|m IH]; intros c.
  - simpl. f_equal. lra.
  - pose proof (pos_INR m) as Hm.
    cbn [harmonic map running app zip_with replicate].
    f_equal; [rewrite S_INR; field; lra|].
    specialize (IH (c * (1 - 1 / (1 + INR (S m))))%R).
    cbn [zip_with] in IH. rewrite IH. cbn [replicate].
    assert (Heq : (c * (1 - 1 / (1 + INR (S m))) / (1 + INR m)
                   = c / (1 + INR (S m)))%R).
    { rewrite S_INR. field. lra. }
    by rewrite Heq.
Qed.

Lemma stick_offsets_zero (n : nat) :
  map (fun j : nat => tf_sigmoid (- ln (IZR (Z.of_nat n - Z.of_nat j)) + 0))
      (seq 0 n)
  = harmonic n.
Proof.
  induction n as [|n IH]; [done|].
  cbn [seq map harmonic]. f_equal.
  - unfold tf_sigmoid.
    replace (Z.of_nat (S n) - Z.of_nat 0) with (Z.of_nat (S n)) by lia.
    rewrite <- INR_IZR_INZ.
    replace (- (- ln (INR (S n)) + 0))%R with (ln (INR (S n))) by lra.
    rewrite exp_ln; [lra|]. apply lt_0_INR. lia.
  - rewrite <- seq_shift, map_map. rewrite <- IH.
    apply map_ext. intros j.
    replace (Z.of_nat (S n) - Z.of_nat (S j)) with (Z.of_nat n - Z.of_nat j) by lia.
    reflexivity.
Qed.

(** X10. For [K >= 2], the stick-breaking map carries the zero array to
    the uniform distribution: every entry of every row is [1/K]. *)
Theorem stick_breaking_zero_uniform (num_factors K : Z) :
  1 <= num_factors ->
  2 <= K ->
  stick_breaking num_factors K
    {| ncols := Z.to_nat (K - 1);
       rows := replicate (Z.to_nat num_factors) (replicate (Z.to_nat (K - 1)) 0%R) |}
  = Ok {| ncols := Z.to_nat K;
          rows := replicate (Z.to_nat num_factors)
                            (replicate (Z.to_nat K) (1 / IZR K)%R) |}.
Proof.
  intros Hnf HK.
  rewrite stick_breaking_rows by (unfold nrows; cbn [rows]; by rewrite length_replicate).
  cbn [ncols rows]. f_equal. f_equal; [lia|].
  rewrite fmap_replicate. f_equal.
  rewrite stick_row_unfold. cbv zeta.
  assert (Hx : zip_with (fun e u => tf_sigmoid (e + u)) (stick_offsets K)
                        (replicate (Z.to_nat (K - 1)) 0%R)
               = harmonic (Z.to_nat (K - 1))).
  { rewrite zip_with_replicate_r_eq by apply stick_offsets_length.
    unfold stick_offsets. rewrite <- stick_offsets_zero.
    rewrite <- list_fmap_compose. apply map_ext_in. intros j Hj.
    apply in_seq in Hj. cbn.
    replace (K - 1 - Z.of_nat j) with (Z.of_nat (Z.to_nat (K - 1)) - Z.of_nat j) by lia.
    reflexivity. }
  rewrite Hx, stick_pieces_harmonic.
  replace (S (Z.to_nat (K - 1))) with (Z.to_nat K) by lia.
  f_equal. rewrite INR_IZR_INZ, Z2Nat.id by lia.
  rewrite minus_IZR. field.
  replace (1 + (IZR K - 1))%R with (IZR K) by lra.
  apply not_0_IZR. lia.
Qed.

(** *** edward.util *)

Lemma clip_bounds : (0 < 1 / 10 ^ 8 < 1 / 2)%R.
Proof.
  replace (10 ^ 8)%R with 100000000%R by ring. lra.
Qed.

Lemma tf_clip_by_value_inside (t lo hi : R) :
  (lo <= t <= hi)%R -> tf_clip_by_value t lo hi = t.
Proof.
  intros [Hlo Hhi]. unfold tf_clip_by_value.
  rewrite Rmax_left by lra. by rewrite Rmin_left by lra.
Qed.

Lemma ln_quotient (x y : R) :
  (0 < x)%R -> (0 < y)%R -> ln (x / y) = (ln x - ln y)%R.
Proof.
  intros Hx Hy. unfold Rdiv.
  rewrite ln_mult by (try apply Rinv_0_lt_compat; lra).
  rewrite ln_Rinv by lra. lra.
Qed.

Lemma tf_sigmoid_odds (t : R) :
  (tf_sigmoid t / (1 - tf_sigmoid t))%R = exp t.
Proof.
  unfold tf_sigmoid. pose proof (exp_pos (- t)) as Hpos.
  rewrite exp_Ropp in *. pose proof (exp_pos t) as Ht.
  field. split; lra.
Qed.

(** X11. [logit] undoes the sigmoid and the sigmoid undoes [logit], on
    the interval [[1e-8, 1 - 1e-8]] to which [logit] clips its argument;
    below and above that interval [logit] is constant. *)
Theorem logit_sigmoid_inverse (x t : R) :
  ((1 / 10 ^ 8 <= x <= 1 - 1 / 10 ^ 8)%R -> tf_sigmoid (logit x) = x)
  /\ ((1 / 10 ^ 8 <= tf_sigmoid t <= 1 - 1 / 10 ^ 8)%R -> logit (tf_sigmoid t) = t)
  /\ ((x <= 1 / 10 ^ 8)%R -> logit x = logit (1 / 10 ^ 8))
  /\ ((1 - 1 / 10 ^ 8 <= x)%R -> logit x = logit (1 - 1 / 10 ^ 8)).
Proof.
  pose proof clip_bounds as Hb.
  repeat split.
  - intros Hx. unfold logit. cbv zeta.
    rewrite tf_clip_by_value_inside by done.
    unfold tf_sigmoid.
    replace (- (ln x - ln (1 - x)))%R with (ln (1 - x) + - ln x)%R by lra.
    rewrite exp_plus, exp_Ropp, !exp_ln by lra. field. lra.
  - intros Hs. unfold logit. cbv zeta.
    rewrite tf_clip_by_value_inside by done.
    pose proof (tf_sigmoid_bounds t) as Hst.
    rewrite <- ln_quotient by lra.
    rewrite tf_sigmoid_odds. apply ln_exp.
  - intros Hx. unfold logit, tf_clip_by_value. cbv zeta.
    rewrite (Rmax_right x) by lra. by rewrite (Rmax_left (1 / 10 ^ 8)) by lra.
  - intros Hx. unfold logit, tf_clip_by_value. cbv zeta.
    rewrite (Rmax_left x) by lra. rewrite (Rmin_right x) by lra.
    rewrite (Rmax_left (1 - 1 / 10 ^ 8)) by lra.
    by rewrite (Rmin_left (1 - 1 / 10 ^ 8)) by lra.
Qed.

(** X12. [softplus(x)] is positive and above [x], and
    [softplus(x) - softplus(-x) = x]. *)
Theorem softplus_properties (x : R) :
  (0 < softplus x)%R /\ (x < softplus x)%R /\ (softplus x - softplus (- x))%R = x.
Proof.
  unfold softplus. pose proof (exp_pos x) as Hx. pose proof (exp_pos (- x)) as Hnx.
  repeat split.
  - rewrite <- ln_1. apply ln_increasing; lra.
  - rewrite <- (ln_exp x) at 1. apply ln_increasing; lra.
  - rewrite <- ln_quotient by lra.
    replace ((1 + exp x) / (1 + exp (- x)))%R with (exp x).
    + apply ln_exp.
    + rewrite exp_Ropp. field. split; lra.
Qed.

Lemma sum_exp_shift (m : R) (x : vector) :
  reduce_sum (map (fun t => exp (t - m)) x)
  = (exp (- m) * reduce_sum (map exp x))%R.
Proof.
  induction x as [|t x IH]; simpl; [lra|].
  rewrite IH. unfold Rminus. rewrite exp_plus. lra.
Qed.

Lemma sum_exp_pos (x : vector) : x <> [] -> (0 < reduce_sum (map exp x))%R.
Proof.
  intros Hne. apply reduce_sum_pos.
  - apply Forall_map_all, exp_pos.
  - by destruct x.
Qed.

Lemma sum_exp_above (x : vector) :
  Forall (fun t => (exp t <= reduce_sum (map exp x))%R) x.
Proof.
  induction x as [|t x IH]; simpl; constructor.
  - assert (0 <= reduce_sum (map exp x))%R.
    { destruct x as [|u x]; [simpl; lra|].
      left. by apply sum_exp_pos. }
    lra.
  - eapply Forall_impl; [exact IH|]. intros u Hu. cbn beta in *.
    pose proof (exp_pos t). lra.
Qed.

(** X13. [log_sum_exp] of a non-empty tensor is the logarithm of the sum
    of the exponentials of its entries, whatever the maximum that is
    subtracted inside, and no entry exceeds it. *)
Theorem log_sum_exp_value (x : vector) :
  x <> [] ->
  log_sum_exp x = Some (ln (reduce_sum (map exp x)))
  /\ Forall (fun t => (t <= ln (reduce_sum (map exp x)))%R) x.
Proof.
  intros Hne. pose proof (sum_exp_pos x Hne) as Hpos. split.
  - unfold log_sum_exp. destruct x as [|x0 rest]; [done|].
    cbn [reduce_max]. set (m := fold_left Rmax rest x0).
    rewrite sum_exp_shift. f_equal.
    pose proof (exp_pos (- m)).
    rewrite ln_mult by lra. rewrite ln_exp. lra.
  - eapply Forall_impl; [apply sum_exp_above|].
    intros t Ht. cbn beta in Ht.
    rewrite <- (ln_exp t) at 1.
    destruct Ht as [Ht| ->]; [left; apply ln_increasing; [apply exp_pos | done] | right; done].
Qed.

Lemma exp_nonpos_le_1 (e : R) : (e <= 0)%R -> (exp e <= 1)%R.
Proof.
  intros [He| ->].
  - left. rewrite <- exp_0. by apply exp_increasing.
  - right. apply exp_0.
Qed.

Lemma rbf_exponent_nonpos (l d : R) :
  l <> 0%R -> (0 <= d)%R -> (-1 / (2 * l ^ 2) * d <= 0)%R.
Proof.
  intros Hl Hd.
  assert (Hl2 : (0 < 2 * l ^ 2)%R) by (simpl; nra).
  assert (Hinv : (0 < / (2 * l ^ 2))%R) by (by apply Rinv_0_lt_compat).
  unfold Rdiv. nra.
Qed.

(** X14. For a length scale other than zero, [rbf] is symmetric in its
    two points, equals [sigma^2] when they coincide, and lies between 0
    and [sigma^2]. *)
Theorem rbf_properties (x y sigma l : R) :
  l <> 0%R ->
  rbf x y sigma l = rbf y x sigma l
  /\ rbf x x sigma l = (sigma ^ 2)%R
  /\ (0 <= rbf x y sigma l <= sigma ^ 2)%R.
Proof.
  intros Hl. unfold rbf. repeat split.
  - do 2 f_equal. ring.
  - replace ((x - x) ^ 2)%R with 0%R by ring. rewrite Rmult_0_r, exp_0. ring.
  - apply Rmult_le_pos; [apply pow2_ge_0 | left; apply exp_pos].
  - rewrite <- (Rmult_1_r (sigma ^ 2)) at 2.
    apply Rmult_le_compat_l; [apply pow2_ge_0|].
    apply exp_nonpos_le_1, rbf_exponent_nonpos; [done | apply pow2_ge_0].
Qed.

Lemma squared_differences_sym (x y : vector) :
  map (fun d => (d ^ 2)%R) (zip_with Rminus x y)
  = map (fun d => (d ^ 2)%R) (zip_with Rminus y x).
Proof.
  revert y. induction x as [|a x IH]; intros [|b y]; simpl; try done.
  rewrite IH. f_equal. ring.
Qed.

Lemma squared_differences_nonneg (x y : vector) :
  (0 <= reduce_sum (map (fun d => (d ^ 2)%R) (zip_with Rminus x y)))%R.
Proof.
  revert y. induction x as [|a x IH]; intros [|b y]; cbn [zip_with map reduce_sum fold_right];
    try lra.
  specialize (IH y). pose proof (pow2_ge_0 (a - b)). unfold reduce_sum in IH. lra.
Qed.

Lemma squared_differences_self (x : vector) :
  reduce_sum (map (fun d => (d ^ 2)%R) (zip_with Rminus x x)) = 0%R.
Proof.
  unfold reduce_sum. induction x as [|a x IH]; cbn [zip_with map fold_right]; [done|].
  rewrite IH. ring.
Qed.

(** X15. For a length scale other than zero, [multivariate_rbf] is
    symmetric in its two points, equals [sigma^2] when they coincide,
    and lies between 0 and [sigma^2]. *)
Theorem multivariate_rbf_properties (x y : vector) (sigma l : R) :
  l <> 0%R ->
  multivariate_rbf x y sigma l = multivariate_rbf y x sigma l
  /\ multivariate_rbf x x sigma l = (sigma ^ 2)%R
  /\ (0 <= multivariate_rbf x y sigma l <= sigma ^ 2)%R.
Proof.
  intros Hl. unfold multivariate_rbf. repeat split.
  - by rewrite squared_differences_sym.
  - rewrite squared_differences_self, Rmult_0_r, exp_0. ring.
  - apply Rmult_le_pos; [apply pow2_ge_0 | left; apply exp_pos].
  - rewrite <- (Rmult_1_r (sigma ^ 2)) at 2.
    apply Rmult_le_compat_l; [apply pow2_ge_0|].
    apply exp_nonpos_le_1, rbf_exponent_nonpos; [done|].
    apply squared_differences_nonneg.
Qed.

(** *** The shape of a sample *)

























End MoreProperties.

(** ** The further statements at concrete inputs *)

Lemma cumprod_prefix_products_witness :
  exists out, cumprod [2%R; 3%R; 4%R] = Ok out
              /\ length out = 3%nat
              /\ forall k, (k < 3)%nat ->
                           out !! k = Some (product (take (S k) [2%R; 3%R; 4%R])).
Proof.
  apply (cumprod_prefix_products [2%R; 3%R; 4%R]). discriminate.
Defined.

Lemma Variational_log_prob_i_owner_witness :
  let h : heap := {[ default_layers := [normal3; bernoulli2] ]} in
  Variational_log_prob_i_with record_call (Variational_init default_layers h) 4
                              one_row_batch h
  = record_call bernoulli2 (4 - sum_over num_factors [normal3])
      (slice_cols one_row_batch (sum_over num_vars [normal3])
                  (sum_over num_vars [normal3] + num_vars bernoulli2)).
Proof.
  intros h.
  apply (Variational_log_prob_i_owner record_call (Variational_init default_layers h) h
           [normal3] [] bernoulli2 4 one_row_batch).
  - reflexivity.
  - constructor; [cbn; lia | constructor].
  - cbn. lia.
Defined.

Lemma Variational_add_log_prob_i_witness :
  let h : heap := {[ default_layers := [normal3] ]} in
  let v := Variational_init default_layers h in
  (forall i, 0 <= i < Variational.num_factors v ->
     Variational_log_prob_i_with record_call (Variational_add v bernoulli2 h).1 i
                                 one_row_batch (Variational_add v bernoulli2 h).2
     = Variational_log_prob_i_with record_call v i one_row_batch h)
  /\ (forall k, 0 <= k < num_factors bernoulli2 ->
       Variational_log_prob_i_with record_call (Variational_add v bernoulli2 h).1
                                   (Variational.num_factors v + k) one_row_batch
                                   (Variational_add v bernoulli2 h).2
       = record_call bernoulli2 k
           (slice_cols one_row_batch (Variational.num_vars v)
                       (Variational.num_vars v + num_vars bernoulli2))).
Proof.
  intros h v.
  apply (Variational_add_log_prob_i record_call v bernoulli2 h one_row_batch).
  - apply Variational_init_invariant.
  - change (h !!! Variational.layers v) with [normal3].
    constructor; [cbn; lia | constructor].
Defined.

Lemma Variational_add_as_init_witness :
  let v := Variational_init default_layers initial_heap in
  (Variational_add v unit_normal initial_heap).1
  = Variational_init (Variational.layers v) (Variational_add v unit_normal initial_heap).2.
Proof.
  intros v. apply (Variational_add_as_init v unit_normal initial_heap). reflexivity.
Defined.

Lemma Variational_is_entropy_sound_witness :
  (exists e,
      Variational_entropy zero_stats
        (Variational_init default_layers {[ default_layers := [normal3; bernoulli2] ]})
        {[ default_layers := [normal3; bernoulli2] ]} = Ok e)
  /\ Variational_entropy zero_stats
       (Variational_init default_layers {[ default_layers := [normal3; pointmass1] ]})
       {[ default_layers := [normal3; pointmass1] ]} = Raise NotImplementedError.
Proof.
  split.
  - exact (Variational_is_entropy_sound zero_stats
             (Variational_init default_layers {[ default_layers := [normal3; bernoulli2] ]})
             {[ default_layers := [normal3; bernoulli2] ]}
             (Variational_init_invariant _ _)).
  - exact (Variational_is_entropy_sound zero_stats
             (Variational_init default_layers {[ default_layers := [normal3; pointmass1] ]})
             {[ default_layers := [normal3; pointmass1] ]}
             (Variational_init_invariant _ _)).
Defined.

Lemma Multinomial_default_pi_interior_witness :
  exists d g' pi,
    Multinomial_init zero_draw [2; 3] None tt = (Ok d, g')
    /\ attrs d = Multinomial 3 pi
    /\ Forall (Forall (fun v => 0 < v < 1)%R) (rows pi).
Proof. apply (Multinomial_default_pi_interior zero_draw 2 3 tt); lia. Defined.

Lemma stick_breaking_zero_uniform_witness :
  stick_breaking 1 3
    {| ncols := Z.to_nat (3 - 1);
       rows := replicate (Z.to_nat 1) (replicate (Z.to_nat (3 - 1)) 0%R) |}
  = Ok {| ncols := Z.to_nat 3;
          rows := replicate (Z.to_nat 1) (replicate (Z.to_nat 3) (1 / IZR 3)%R) |}.
Proof. apply (stick_breaking_zero_uniform 1 3); lia. Defined.

Lemma logit_sigmoid_inverse_witness :
  tf_sigmoid (logit (1 / 2)) = (1 / 2)%R
  /\ logit (tf_sigmoid 0) = 0%R
  /\ logit 0 = logit (1 / 10 ^ 8)
  /\ logit 1 = logit (1 - 1 / 10 ^ 8).
Proof.
  assert (Hb : (0 < 1 / 10 ^ 8 < 1 / 2)%R).
  { replace (10 ^ 8)%R with 100000000%R by ring. lra. }
  assert (Hhalf : tf_sigmoid 0 = (1 / 2)%R).
  { unfold tf_sigmoid. rewrite Ropp_0, exp_0. lra. }
  destruct (logit_sigmoid_inverse (1 / 2) 0) as (H1 & H2 & _ & _).
  destruct (logit_sigmoid_inverse 0 0) as (_ & _ & H3 & _).
  destruct (logit_sigmoid_inverse 1 0) as (_ & _ & _ & H4).
  split; [apply H1; lra|].
  split; [apply H2; rewrite Hhalf; lra|].
  split; [apply H3; lra | apply H4; lra].
Defined.

Lemma log_sum_exp_value_witness :
  log_sum_exp [0%R; 0%R] = Some (ln (reduce_sum (map exp [0%R; 0%R])))
  /\ Forall (fun t => (t <= ln (reduce_sum (map exp [0%R; 0%R])))%R) [0%R; 0%R].
Proof. apply (log_sum_exp_value [0%R; 0%R]). discriminate. Defined.

Lemma rbf_properties_witness :
  rbf 1 3 2 1 = rbf 3 1 2 1
  /\ rbf 1 1 2 1 = (2 ^ 2)%R
  /\ (0 <= rbf 1 3 2 1 <= 2 ^ 2)%R.
Proof. apply (rbf_properties 1 3 2 1). lra. Defined.

Lemma multivariate_rbf_properties_witness :
  multivariate_rbf [1%R; 2%R] [3%R; 5%R] 2 1 = multivariate_rbf [3%R; 5%R] [1%R; 2%R] 2 1
  /\ multivariate_rbf [1%R; 2%R] [1%R; 2%R] 2 1 = (2 ^ 2)%R
  /\ (0 <= multivariate_rbf [1%R; 2%R] [3%R; 5%R] 2 1 <= 2 ^ 2)%R.
Proof. apply (multivariate_rbf_properties [1%R; 2%R] [3%R; 5%R] 2 1). lra. Defined.

